(** * dt-mergebot: the run driver ([src/run.ts])

    A shallow embedding of the command-line driver of the merge bot: the
    coercion of the positional arguments into PR-number predicates, the
    per-PR loop of [start], the board clean-up that follows it, and the
    top-level handler that turns a rejected [start()] into exit code 1.

    The remote collaborators (queries, state derivation, action planning,
    action execution, the mutation client) live in other modules of the
    repository; they are taken as an environment of state-passing functions
    over an abstract world, each of which may return or throw. *)

From Stdlib Require Import ZArith List String Ascii Bool Lia DecimalString.
From Stdlib Require Import Sorted Permutation OrdersEx RelationClasses Morphisms.
From Stdlib Require Import DecimalPos DecimalZ.
Import ListNotations.

Local Open Scope string_scope.
Local Open Scope Z_scope.

(** ** Strings and numbers as JavaScript prints and reads them *)

(** [\d] of a JavaScript regular expression: the ten ASCII digits. *)
Definition is_digit (c : ascii) : bool :=
  let n := nat_of_ascii c in (48 <=? n)%nat && (n <=? 57)%nat.

Definition digit_value (c : ascii) : Z := Z.of_nat (nat_of_ascii c) - 48.

(** [/^\d+$/]: one or more digits and nothing else. *)
Fixpoint all_digits (s : string) : bool :=
  match s with
  | EmptyString => true
  | String c r => is_digit c && all_digits r
  end.

Definition match_number (s : string) : bool :=
  match s with
  | EmptyString => false
  | _ => all_digits s
  end.

(** The longest prefix of digits, and what follows it: how the greedy [\d+]
    of [/^(\d+)-(\d+)$/] consumes its input. *)
Fixpoint span_digits (s : string) : string * string :=
  match s with
  | String c r =>
      if is_digit c
      then let (a, b) := span_digits r in (String c a, b)
      else (EmptyString, s)
  | EmptyString => (EmptyString, EmptyString)
  end.

(** [pr.match(/^(\d+)-(\d+)$/)]: the two captured groups, or [None] for the
    [null] of a failed match. *)
Definition match_range (s : string) : option (string * string) :=
  match span_digits s with
  | (EmptyString, _) => None
  | (lo, String "-" hi) => if match_number hi then Some (lo, hi) else None
  | _ => None
  end.

(** Unary [+] on a string of decimal digits: the number the digits
    denote.  That is the value of the code for digit strings that denote a
    number up to 2^53, where a JavaScript number holds every integer
    exactly, and PR numbers are far below that; a larger number the code
    rounds to a double, which this definition does not follow.  Statements
    that read a number out of a token are made within that bound. *)
Fixpoint to_number_from (acc : Z) (s : string) : Z :=
  match s with
  | EmptyString => acc
  | String c r => to_number_from (10 * acc + digit_value c) r
  end.

Definition to_number (s : string) : Z := to_number_from 0 s.

(** An integer inside a template literal. *)
Definition show_Z (n : Z) : string := NilZero.string_of_int (Z.to_int n).

(** [Array.prototype.join], which is also how an array is printed inside a
    template literal (with [","]). *)
Definition join (sep : string) (l : list string) : string := String.concat sep l.

(** The double-quote character, and a string between two of them. *)
Definition dquote : ascii := ascii_of_nat 34.
Definition newline : ascii := ascii_of_nat 10.

Definition quoted (s : string) : string :=
  String dquote (s ++ String dquote EmptyString).

(** ** Exceptions and outcomes *)

(** A thrown value; every [throw] of the driver throws an [Error] with a
    message. *)
Inductive exn : Type :=
| JsError (message : string).

(** [`${e}`] *)
Definition exn_to_string (e : exn) : string :=
  match e with JsError m => "Error: " ++ m end.

Inductive outcome (A : Type) : Type :=
| Ret (a : A)
| Throw (e : exn).
Arguments Ret {A} a.
Arguments Throw {A} e.

(** ** The positional arguments *)

(** An element of [args._] as yargs hands it to the coercion:
    [(number|string)]. *)
Inductive token : Type :=
| TNum (n : Z)
| TStr (s : string).

Definition bad_token_message (s : string) : string :=
  "bad PR or PR range argument: " ++ quoted s.

(** The callback of [.coerce("_", prs => prs.map(pr => ...))] on one
    element.  The predicates are applied to PR numbers, which are
    integers. *)
Definition coerce_token (pr : token) : outcome (Z -> bool) :=
  match pr with
  | TNum k => Ret (fun n => n =? k)
  | TStr s =>
      if match_number s then Ret (fun n => n =? to_number s)
      else match match_range s with
           | None => Throw (JsError (bad_token_message s))
           | Some (m1, m2) =>
               let lo := to_number m1 in
               let hi := to_number m2 in
               Ret (fun n => (lo <=? n) && (n <=? hi))
           end
  end.

(** [prs.map(...)]: left to right, the first throw ends the map. *)
Fixpoint coerce (prs : list token) : outcome (list (Z -> bool)) :=
  match prs with
  | [] => Ret []
  | pr :: rest =>
      match coerce_token pr with
      | Throw e => Throw e
      | Ret p =>
          match coerce rest with
          | Throw e => Throw e
          | Ret ps => Ret (p :: ps)
          end
      end
  end.

(** [shouldRunOn] over the coerced [args._]. *)
Definition shouldRunOn (preds : list (Z -> bool)) : Z -> bool :=
  match preds with
  | [] => fun _n => true
  | _ => fun n => existsb (fun p => p n) preds
  end.


(** ** The board *)

Record Card : Type := mkCard {
  id : string;
  updatedAt : string
}.

Record Column : Type := mkColumn {
  name : string;
  cards : list Card;
  totalCount : Z
}.

(** What [runQueryToGetPRForCardId] resolves a card to. *)
Record CardPR : Type := mkCardPR {
  number : Z;
  state : string
}.

(** [l.localeCompare(r)] on two [updatedAt] values.  These are ISO-8601
    instants of one fixed layout (the same characters between the digits,
    at the same places), on which the collation order is the order of the
    characters.  On strings of different layouts collation and character
    order can differ, and this definition does not follow the code there;
    statements about the order of cards are made for cards of one
    layout. *)
Definition localeCompare (l r : string) : Z :=
  match String.compare l r with
  | Lt => -1
  | Eq => 0
  | Gt => 1
  end.

(** [cards.sort((l, r) => l.updatedAt.localeCompare(r.updatedAt))].
    [Array.prototype.sort] is stable; with a consistent comparator its
    result is the stable ascending arrangement, computed here by
    insertion. *)
Fixpoint insert_card (c : Card) (l : list Card) : list Card :=
  match l with
  | [] => [c]
  | d :: r =>
      if localeCompare (updatedAt c) (updatedAt d) <=? 0
      then c :: d :: r
      else d :: insert_card c r
  end.

Fixpoint sort_cards (l : list Card) : list Card :=
  match l with
  | [] => []
  | c :: r => insert_card c (sort_cards r)
  end.

(** [.slice(50)] of the sorted cards. *)
Definition afterFirst50 (cs : list Card) : list Card :=
  skipn 50 (sort_cards cs).

(** The cards of the sorted array that [.slice(50)] leaves behind. *)
Definition first50 (cs : list Card) : list Card :=
  firstn 50 (sort_cards cs).

(** ** What a run does to the outside *)

Inductive stream : Type := Log | Error | Warn.

Inductive event : Type :=
| Console (s : stream) (line : string)  (* console.log / .error / .warn *)
| Display (title : string)              (* show(title, value) *)
| ErrorValue (e : exn)                  (* console.error(error) *)
| QueryOpenPRs                          (* getAllOpenPRsAndCardIDs() *)
| QueryPRInfo (pr : Z)                  (* getPRInfo(pr) *)
| QueryBoard                            (* getProjectBoardCards() *)
| QueryCardPR (cardId : string)         (* runQueryToGetPRForCardId(id) *)
| ExecuteActions (pr : Z) (dry : bool)  (* executePrActions(_, prInfo, dry) *)
| DeleteProjectCard (cardId : string)   (* client.mutate(deleteProjectCard) *)
| UsageFailure (message : string).      (* yargs: usage, message, exit(1) *)

Definition trace : Type := list event.

(** One trace after another. *)
Infix "+++" := (@app event) (at level 60, right associativity).

(** The parsed command line. *)
Record Args : Type := mkArgs {
  dry : bool;
  cleanup : bool;
  format : option string;
  show_raw : option bool;
  show_basic : option bool;
  show_extended : option bool;
  show_actions : option bool;
  show_mutations : option bool;
  positional : list (Z -> bool)           (* args._ after coercion *)
}.

(** Truthiness of a [boolean | undefined] and of a [string | undefined]. *)
Definition truthy (b : option bool) : bool :=
  match b with Some true => true | _ => false end.

Definition truthy_string (s : option string) : bool :=
  match s with
  | Some (String _ _) => true
  | _ => false
  end.

(** [a ?? b] *)
Definition nullish {A : Type} (a : option A) (b : A) : A :=
  match a with Some x => x | None => b end.

(** [prs.indexOf(pr)] *)
Fixpoint indexOf (pr : Z) (prs : list Z) : Z :=
  match prs with
  | [] => -1
  | q :: r =>
      if q =? pr then 0
      else let i := indexOf pr r in if i <? 0 then -1 else i + 1
  end.

(** ** The derived state of a PR *)

(** Modelled from the spec: the type [BotResult] of [pr-info.ts], which is
    not part of the sources in view.  It is a tagged union of an [error]
    variant that carries a message and of further classification variants,
    each of which may carry a message; [D] is what such a variant holds
    besides. *)
Inductive BotResult (D : Type) : Type :=
| BotError (message : string)
| BotClassified (message : option string) (detail : D).
Arguments BotError {D} message.
Arguments BotClassified {D} message detail.

(** [state.type === "error"] *)
Definition is_error {D : Type} (st : BotResult D) : bool :=
  match st with BotError _ => true | _ => false end.

(** ["message" in state], and then [state.message]. *)
Definition message_of {D : Type} (st : BotResult D) : option string :=
  match st with
  | BotError m => Some m
  | BotClassified m _ => m
  end.

(** ** The driver *)

Section Driver.

(** The world the collaborators read and write, and the data they
    exchange with the driver without the driver looking inside. *)
Variables (W RawInfo PrInfo D Action Mutation : Type).

(** The collaborators of [run.ts].  Those that are awaited pass the
    world along; each may throw. *)
Record Env : Type := mkEnv {
  getAllOpenPRsAndCardIDs : W -> outcome (list Z * list string) * W;
  getPRInfo : Z -> W -> outcome RawInfo * W;
  (** [info.data.repository?.pullRequest] *)
  pullRequest : RawInfo -> option PrInfo;
  (** [JSON.stringify(info)] *)
  stringify : RawInfo -> string;
  deriveStateForPR : PrInfo -> W -> outcome (BotResult D) * W;
  (** [computeActions(state, sink)]: given whether a sink is installed,
      how many times the planner calls it and what the planner
      returns. *)
  computeActions : BotResult D -> bool -> nat * outcome (list Action);
  executePrActions : list Action -> PrInfo -> bool -> W -> outcome (list Mutation) * W;
  getProjectBoardCards : W -> outcome (list Column) * W;
  runQueryToGetPRForCardId : string -> W -> outcome (option CardPR) * W;
  (** [client.mutate] of a [deleteProjectCard] mutation for a card. *)
  mutateDeleteProjectCard : string -> W -> outcome unit * W
}.

(** A computation of the driver: from a world to an outcome, the world
    afterwards and what was printed, asked and submitted on the way. *)
Definition M (A : Type) : Type := W -> outcome A * W * trace.

Definition ret {A : Type} (a : A) : M A := fun w => (Ret a, w, []).

Definition throw {A : Type} (e : exn) : M A := fun w => (Throw e, w, []).

Definition bind {A B : Type} (m : M A) (f : A -> M B) : M B :=
  fun w =>
    match m w with
    | (Ret a, w1, t1) =>
        match f a w1 with
        | (o, w2, t2) => (o, w2, (t1 ++ t2)%list)
        end
    | (Throw e, w1, t1) => (Throw e, w1, t1)
    end.

(** [try { x = await m } catch (e) { ... }]: the outcome as a value. *)
Definition try_catch {A : Type} (m : M A) : M (outcome A) :=
  fun w => match m w with (o, w1, t1) => (Ret o, w1, t1) end.

Definition emit (e : event) : M unit := fun w => (Ret tt, w, [e]).

(** An awaited call of a collaborator, noted in the trace. *)
Definition call {A : Type} (e : event) (f : W -> outcome A * W) : M A :=
  fun w => let (o, w1) := f w in (o, w1, [e]).

(** A synchronous call that may throw. *)
Definition lift {A : Type} (o : outcome A) : M A := fun w => (o, w, []).

Definition when (b : bool) (m : M unit) : M unit := if b then m else ret tt.

Notation "x <- m ;; k" := (bind m (fun x => k))
  (at level 61, m at next level, right associativity).
Notation "m ;; k" := (bind m (fun _ => k))
  (at level 61, right associativity).

Definition console (s : stream) (line : string) : M unit := emit (Console s line).

(** [show(name, value)] *)
Definition show (title : string) : M unit := emit (Display title).

Fixpoint repeat_m (k : nat) (m : M unit) : M unit :=
  match k with
  | O => ret tt
  | S k' => m ;; repeat_m k' m
  end.

Variable env : Env.
Variable args : Args.

Definition failure : Type := (exn * Z)%type.

(** The body of [for (const pr of prs)], from a failure list to the
    failure list after it. *)
Definition process_pr (prs : list Z) (pr : Z) (failures : list failure)
  : M (list failure) :=
  if negb (shouldRunOn (positional args) pr) then ret failures else
  console Log ("Processing #" ++ show_Z pr ++ " ("
               ++ show_Z (indexOf pr prs + 1) ++ " of "
               ++ show_Z (Z.of_nat (List.length prs)) ++ ")...") ;;
  info <- call (QueryPRInfo pr) (getPRInfo env pr) ;;
  when (truthy (show_raw args)) (show "Raw Query Result") ;;
  match pullRequest env info with
  | None =>
      console Error ("  No PR with this number exists, ("
                     ++ stringify env info ++ ")") ;;
      ret failures
  | Some prInfo =>
      r <- try_catch (fun w => let (o, w1) := deriveStateForPR env prInfo w in (o, w1, [])) ;;
      match r with
      | Throw e =>
          console Error ("  Error: " ++ exn_to_string e) ;;
          ret (failures ++ [(e, pr)])%list
      | Ret st =>
          when (truthy (show_basic args)) (show "Basic PR Info") ;;
          match st with
          | BotError m => console Error ("  Error: " ++ m)
          | _ => ret tt
          end ;;
          match message_of st with
          | Some m => console Log ("  ... " ++ m)
          | None => ret tt
          end ;;
          let (sunk, planned) := computeActions env st (truthy (show_extended args)) in
          when (truthy (show_extended args)) (repeat_m sunk (show "Extended Info")) ;;
          actions <- lift planned ;;
          when (truthy (show_actions args)) (show "Actions") ;;
          mutations <- call (ExecuteActions pr (dry args))
                            (executePrActions env actions prInfo (dry args)) ;;
          when (nullish (show_mutations args) (dry args)) (show "Mutations") ;;
          ret failures
      end
  end.

(** The loop over [prs]; [rest] is what is still to visit. *)
Fixpoint process_prs (prs rest : list Z) (failures : list failure)
  : M (list failure) :=
  match rest with
  | [] => ret failures
  | pr :: rest' =>
      failures' <- process_pr prs pr failures ;;
      process_prs prs rest' failures'
  end.

(** [deleteObject(id, shoulda)] *)
Definition deleteObject (id : string) (shoulda : option string) : M unit :=
  if truthy_string shoulda
  then console Log ("  Should delete " ++ quoted id ++ " ("
                    ++ nullish shoulda "" ++ ")")
  else call (DeleteProjectCard id) (mutateDeleteProjectCard env id).

(** [for (const card of afterFirst50) await deleteObject(card.id)] *)
Fixpoint delete_cards (cs : list Card) : M unit :=
  match cs with
  | [] => ret tt
  | c :: r => deleteObject (id c) None ;; delete_cards r
  end.

(** The block commented [Reduce "Recently Merged"]. *)
Definition reduce_recently_merged (columns : list Column) : M unit :=
  match find (fun c => String.eqb (name c) "Recently Merged") columns with
  | None =>
      throw (JsError ("Could not find the 'Recently Merged' column in "
                      ++ join "," (map name columns)))
  | Some recentlyMerged =>
      let cs := cards recentlyMerged in
      let rest := afterFirst50 cs in
      if (0 <? Z.of_nat (List.length rest))
      then
        console Log ("Cutting " ++ quoted "Recently Merged"
                     ++ " projects to the last 50") ;;
        when (Z.of_nat (List.length cs) <? totalCount recentlyMerged)
             (console Warn ("  *** Note: "
                            ++ show_Z (totalCount recentlyMerged - Z.of_nat (List.length cs))
                            ++ " cards were not seen by this query!")) ;;
        delete_cards rest
      else ret tt
  end.

(** The third argument of [deleteObject] in the loop over the other
    columns. *)
Definition shoulda_of (info : option CardPR) : option string :=
  match info with
  | None => Some "???"
  | Some i =>
      if String.eqb (state i) "CLOSED" then None
      else Some ("#" ++ show_Z (number i))
  end.

(** The body of [for (const id of ids)]. *)
Definition check_id (i : string) : M unit :=
  info <- call (QueryCardPR i) (runQueryToGetPRForCardId env i) ;;
  deleteObject i (shoulda_of info).

Fixpoint check_ids (ids : list string) : M unit :=
  match ids with
  | [] => ret tt
  | i :: r => check_id i ;; check_ids r
  end.

(** [column.cards.map(c => c.id).filter(c => !cardIDs.includes(c))] *)
Definition stale_ids (cardIDs : list string) (column : Column) : list string :=
  filter (fun c => negb (existsb (String.eqb c) cardIDs))
         (map id (cards column)).

(** The body of [for (const column of columns)]. *)
Definition handle_column (cardIDs : list string) (column : Column) : M unit :=
  if String.eqb (name column) "Recently Merged" then ret tt else
  let ids := stale_ids cardIDs column in
  match ids with
  | [] => ret tt
  | _ =>
      console Log ("Cleaning up closed PRs in " ++ quoted (name column)) ;;
      check_ids ids
  end.

Fixpoint handle_other_columns (cardIDs : list string) (columns : list Column)
  : M unit :=
  match columns with
  | [] => ret tt
  | c :: r => handle_column cardIDs c ;; handle_other_columns cardIDs r
  end.

(** [for (const [e, pr] of failures) console.error(...)] *)
Fixpoint print_failures (failures : list failure) : M unit :=
  match failures with
  | [] => ret tt
  | (e, pr) :: r =>
      console Error ("  #" ++ show_Z pr ++ ": " ++ exn_to_string e) ;;
      print_failures r
  end.

(** The closing [if (failures.length) ... else ...]. *)
Definition report (failures : list failure) : M unit :=
  match failures with
  | [] => console Log "Done"
  | (e0, _) :: _ =>
      console Error (String newline (String newline "The following PRs failed:")) ;;
      print_failures failures ;;
      throw e0
  end.

(** From ["Cleaning up cards"] to the end of the loop over the other
    columns. *)
Definition clean_board (cardIDs : list string) : M unit :=
  console Log "Cleaning up cards" ;;
  columns <- call QueryBoard (getProjectBoardCards env) ;;
  reduce_recently_merged columns ;;
  handle_other_columns cardIDs columns.

(** Everything of [start] after the loop over the PRs. *)
Definition finish (cardIDs : list string) (failures : list failure) : M unit :=
  if dry args || negb (cleanup args) then ret tt else
  clean_board cardIDs ;;
  report failures.

Definition start : M unit :=
  console Log "Getting open PRs." ;;
  r <- call QueryOpenPRs (getAllOpenPRsAndCardIDs env) ;;
  let (prs, cardIDs) := (r : list Z * list string) in
  failures <- process_prs prs prs [] ;;
  finish cardIDs failures.

(** [start().catch(error => { process.exitCode = 1; console.error(error) })]:
    the exit code of the process, the world and the trace. *)
Definition run (w : W) : Z * W * trace :=
  match start w with
  | (Ret _, w1, t) => (0, w1, t)
  | (Throw e, w1, t) => (1, w1, (t ++ [ErrorValue e])%list)
  end.

End Driver.

Arguments getAllOpenPRsAndCardIDs {W RawInfo PrInfo D Action Mutation} _ _.
Arguments getPRInfo {W RawInfo PrInfo D Action Mutation} _ _ _.
Arguments pullRequest {W RawInfo PrInfo D Action Mutation} _ _.
Arguments stringify {W RawInfo PrInfo D Action Mutation} _ _.
Arguments deriveStateForPR {W RawInfo PrInfo D Action Mutation} _ _ _.
Arguments computeActions {W RawInfo PrInfo D Action Mutation} _ _ _.
Arguments executePrActions {W RawInfo PrInfo D Action Mutation} _ _ _ _ _.
Arguments getProjectBoardCards {W RawInfo PrInfo D Action Mutation} _ _.
Arguments runQueryToGetPRForCardId {W RawInfo PrInfo D Action Mutation} _ _ _.
Arguments mutateDeleteProjectCard {W RawInfo PrInfo D Action Mutation} _ _ _.
Arguments process_pr {W RawInfo PrInfo D Action Mutation} env args prs pr failures _.
Arguments process_prs {W RawInfo PrInfo D Action Mutation} env args prs rest failures _.
Arguments deleteObject {W RawInfo PrInfo D Action Mutation} env id shoulda _.
Arguments delete_cards {W RawInfo PrInfo D Action Mutation} env cs _.
Arguments reduce_recently_merged {W RawInfo PrInfo D Action Mutation} env columns _.
Arguments check_id {W RawInfo PrInfo D Action Mutation} env i _.
Arguments check_ids {W RawInfo PrInfo D Action Mutation} env ids _.
Arguments handle_column {W RawInfo PrInfo D Action Mutation} env cardIDs column _.
Arguments handle_other_columns {W RawInfo PrInfo D Action Mutation} env cardIDs columns _.
Arguments print_failures {W} failures _.
Arguments report {W} failures _.
Arguments clean_board {W RawInfo PrInfo D Action Mutation} env cardIDs _.
Arguments finish {W RawInfo PrInfo D Action Mutation} env args cardIDs failures _.
Arguments start {W RawInfo PrInfo D Action Mutation} env args _.
Arguments run {W RawInfo PrInfo D Action Mutation} env args w.

(** ** The program *)

Definition with_positional (a : Args) (ps : list (Z -> bool)) : Args :=
  mkArgs (dry a) (cleanup a) (format a) (show_raw a) (show_basic a)
         (show_extended a) (show_actions a) (show_mutations a) ps.

(** The module from its first line to its last.  The coercion runs while
    yargs parses the command line; when it throws, yargs prints the usage
    and the message and exits with status 1, and [start] is never
    called. *)
Definition program {W RawInfo PrInfo D Action Mutation : Type}
    (env : Env W RawInfo PrInfo D Action Mutation)
    (flags : Args) (argv : list token) (w : W) : Z * W * trace :=
  match coerce argv with
  | Throw (JsError m) => (1, w, [UsageFailure m])
  | Ret ps => run env (with_positional flags ps) w
  end.

(** ** Vocabulary of the statements *)

(** What [when (..) (show title)] leaves in the trace. *)
Definition shown (b : bool) (title : string) : trace :=
  if b then [Display title] else [].

(** A decimal number: one or more of the digits 0 to 9. *)
Definition decimal_number (s : string) : Prop :=
  s <> EmptyString /\ Forall (fun c => is_digit c = true) (list_ascii_of_string s).

(** A decimal range [N-M]. *)
Definition decimal_range (s : string) : Prop :=
  exists a b, decimal_number a /\ decimal_number b /\ s = a ++ "-" ++ b.

(** The lines that [report] prints for the recorded failures. *)
Definition failure_lines (failures : list (exn * Z)) : trace :=
  map (fun f => Console Error ("  #" ++ show_Z (snd f) ++ ": " ++ exn_to_string (fst f)))
      failures.

Definition failed_header : event :=
  Console Error (String newline (String newline "The following PRs failed:")).

Definition processing_line (prs : list Z) (pr : Z) : event :=
  Console Log ("Processing #" ++ show_Z pr ++ " ("
               ++ show_Z (indexOf pr prs + 1) ++ " of "
               ++ show_Z (Z.of_nat (List.length prs)) ++ ")...").

Definition missing_column_error (columns : list Column) : exn :=
  JsError ("Could not find the 'Recently Merged' column in "
           ++ join "," (map name columns)).

Definition should_delete_line (i reason : string) : event :=
  Console Log ("  Should delete " ++ quoted i ++ " (" ++ reason ++ ")").

Definition cutting_line : event :=
  Console Log ("Cutting " ++ quoted "Recently Merged" ++ " projects to the last 50").

Definition unseen_warning (unseen : Z) : event :=
  Console Warn ("  *** Note: " ++ show_Z unseen ++ " cards were not seen by this query!").

(** ** Small worlds to run the driver in *)

(** An environment without a state of its own: open PRs and card ids, which
    PRs the query finds, and what each collaborator answers. *)
Definition pure_env
    (prs : list Z) (cardIDs : list string)
    (found : Z -> bool)
    (derive : Z -> outcome (BotResult unit))
    (plan : BotResult unit -> outcome (list string))
    (exec : list string -> Z -> outcome (list string))
    (board : list Column)
    (lookup : string -> option CardPR)
  : Env unit (option Z) Z unit string string :=
  mkEnv unit (option Z) Z unit string string
    (fun w => (Ret (prs, cardIDs), w))
    (fun pr w => (Ret (if found pr then Some pr else None), w))
    (fun info => info)
    (fun info => match info with Some pr => show_Z pr | None => "null" end)
    (fun pr w => (derive pr, w))
    (fun st _ => (O, plan st))
    (fun actions pr _ w => (exec actions pr, w))
    (fun w => (Ret board, w))
    (fun i w => (Ret (lookup i), w))
    (fun _ w => (Ret tt, w)).

(** No flag given: live, with clean-up. *)
Definition default_args : Args :=
  mkArgs false true None None None None None None [].

Definition dry_args : Args :=
  mkArgs true true None None None None None None [].

Definition ok_state : BotResult unit := BotClassified None tt.

Definition two_digits (n : Z) : string :=
  if n <? 10 then "0" ++ show_Z n else show_Z n.

(** Card number [i] of an archive column: the larger [i], the later the
    card was updated. *)
Definition card_at (i : Z) : Card :=
  mkCard ("card" ++ show_Z i)
         ("2021-06-" ++ two_digits (1 + i / 24) ++ "T"
          ++ two_digits (i mod 24) ++ ":00:00Z").

Definition upto (n : nat) : list Z := map Z.of_nat (seq 0 n).

Definition range (lo : Z) (n : nat) : list Z := map (fun k => lo + k) (upto n).

(** 73 cards, in no particular order. *)
Definition cards73 : list Card :=
  map (fun k => card_at ((k * 31) mod 73)) (upto 73).

Definition archive73 : Column := mkColumn "Recently Merged" cards73 73.

Definition empty_archive : Column := mkColumn "Recently Merged" [] 0.

Definition env_archive73 :=
  pure_env [] [] (fun _ => true) (fun _ => Ret ok_state) (fun _ => Ret [])
           (fun _ _ => Ret []) [archive73] (fun _ => None).

(** What the driver prints for a PR before it looks at the answer of the
    query. *)
Definition prelude (args : Args) (prs : list Z) (pr : Z) : trace :=
  [processing_line prs pr; QueryPRInfo pr]
  +++ shown (truthy (show_raw args)) "Raw Query Result".

(** What it prints about a derived state. *)
Definition state_lines {D : Type} (st : BotResult D) : trace :=
  match st with
  | BotError m => [Console Error ("  Error: " ++ m)]
  | _ => []
  end
  +++ match message_of st with
     | Some m => [Console Log ("  ... " ++ m)]
     | None => []
     end.

(** What the planner's sink prints when it is installed and called [k]
    times. *)
Definition sunk_lines (installed : bool) (k : nat) : trace :=
  if installed then repeat (Display "Extended Info") k else [].

(** The trace of a PR up to the call of the planner. *)
Definition planning (args : Args) {D : Type} (prs : list Z) (pr : Z)
    (st : BotResult D) (k : nat) : trace :=
  prelude args prs pr
  +++ shown (truthy (show_basic args)) "Basic PR Info"
  +++ state_lines st
  +++ sunk_lines (truthy (show_extended args)) k.

(** The trace of a PR up to the call of the executor. *)
Definition executing (args : Args) {D : Type} (prs : list Z) (pr : Z)
    (st : BotResult D) (k : nat) : trace :=
  planning args prs pr st k
  +++ shown (truthy (show_actions args)) "Actions"
  +++ [ExecuteActions pr (dry args)].

Definition error_line (e : exn) : event :=
  Console Error ("  Error: " ++ exn_to_string e).

Definition no_pr_line (json : string) : event :=
  Console Error ("  No PR with this number exists, (" ++ json ++ ")").

(** The two events with which [start] begins. *)
Definition opening : trace := [Console Log "Getting open PRs."; QueryOpenPRs].

(** PR 7 is listed as open, but the query for it finds no pull request. *)
Definition env_missing_pr :=
  pure_env [7] [] (fun _ => false) (fun _ => Ret ok_state) (fun _ => Ret [])
           (fun _ _ => Ret []) [empty_archive] (fun _ => None).

(** Three open PRs; the derivation of the second throws. *)
Definition env_derive_throws :=
  pure_env [1; 2; 3] [] (fun _ => true)
           (fun pr => if pr =? 2 then Throw (JsError "inconsistent metadata")
                      else Ret ok_state)
           (fun _ => Ret []) (fun _ _ => Ret []) [empty_archive] (fun _ => None).

(** Two open PRs; the planner throws. *)
Definition env_plan_throws :=
  pure_env [1; 2] [] (fun _ => true) (fun _ => Ret ok_state)
           (fun _ => Throw (JsError "no rule applies"))
           (fun _ _ => Ret []) [empty_archive] (fun _ => None).

(** Two open PRs; the executor fails to submit a mutation for the first. *)
Definition env_execute_throws :=
  pure_env [1; 2] [] (fun _ => true) (fun _ => Ret ok_state)
           (fun _ => Ret ["add label"])
           (fun _ pr => if pr =? 1 then Throw (JsError "mutation failed")
                        else Ret ["addLabelsToLabelable"])
           [empty_archive] (fun _ => None).

(** PRs 101 and 102 are open; 101 derives to the error state "CI failed",
    for which the planner plans nothing; 102 derives to an informational
    state. *)
Definition env_ci_failed :=
  pure_env [101; 102] [] (fun _ => true)
           (fun pr => if pr =? 101 then Ret (BotError "CI failed") else Ret ok_state)
           (fun st => if is_error st then Ret [] else Ret ["add label"])
           (fun actions _ => Ret actions)
           [empty_archive] (fun _ => None).

(** A board without the archive column; the derivation of PR 2 throws. *)
Definition env_no_archive :=
  pure_env [1; 2; 3] [] (fun _ => true)
           (fun pr => if pr =? 2 then Throw (JsError "inconsistent metadata")
                      else Ret ok_state)
           (fun _ => Ret []) (fun _ _ => Ret [])
           [mkColumn "Needs Review" [card_at 0] 1; mkColumn "Other" [] 0]
           (fun _ => Some (mkCardPR 1 "CLOSED")).

(** No open PR at all, and a board without the archive column. *)
Definition env_idle_no_archive :=
  pure_env [] [] (fun _ => true) (fun _ => Ret ok_state)
           (fun _ => Ret []) (fun _ _ => Ret [])
           [mkColumn "Needs Review" [] 0] (fun _ => None).

(** An archive column of which one card out of two was fetched. *)
Definition env_short_archive :=
  pure_env [] [] (fun _ => true) (fun _ => Ret ok_state)
           (fun _ => Ret []) (fun _ _ => Ret [])
           [mkColumn "Recently Merged" [card_at 0] 2] (fun _ => None).

(** An archive column of which 73 cards out of 100 were fetched. *)
Definition env_long_archive :=
  pure_env [] [] (fun _ => true) (fun _ => Ret ok_state)
           (fun _ => Ret []) (fun _ _ => Ret [])
           [mkColumn "Recently Merged" cards73 100] (fun _ => None).

(** A column with four cards: [a] belongs to the open PR 12, [b] to no PR
    that the query finds, [c] to the closed PR 9, [d] to the merged PR 5;
    [e] is the card of a PR that is known to be open. *)
Definition review_column : Column :=
  mkColumn "Needs Maintainer Review"
           [mkCard "a" "2021-06-01T00:00:00Z"; mkCard "b" "2021-06-01T00:00:00Z";
            mkCard "c" "2021-06-01T00:00:00Z"; mkCard "d" "2021-06-01T00:00:00Z";
            mkCard "e" "2021-06-01T00:00:00Z"] 5.

Definition review_lookup (i : string) : option CardPR :=
  if String.eqb i "a" then Some (mkCardPR 12 "OPEN")
  else if String.eqb i "c" then Some (mkCardPR 9 "CLOSED")
  else if String.eqb i "d" then Some (mkCardPR 5 "MERGED")
  else None.

Definition env_review :=
  pure_env [] ["e"] (fun _ => true) (fun _ => Ret ok_state)
           (fun _ => Ret []) (fun _ _ => Ret [])
           [empty_archive; review_column] review_lookup.

(** The answer of the card query says that the PR is closed. *)
Definition confirmed_closed (info : option CardPR) : bool :=
  match info with
  | Some pr => String.eqb (state pr) "CLOSED"
  | None => false
  end.

(** What is printed between the brackets of a "Should delete" line. *)
Definition reason (info : option CardPR) : string :=
  match info with
  | Some pr => "#" ++ show_Z (number pr)
  | None => "???"
  end.

(** The trace of the deletions of a list of cards that all succeed. *)
Definition deletions (cs : list Card) : trace :=
  map (fun c => DeleteProjectCard (id c)) cs.

(** [c] was updated strictly before [d]. *)
Definition older (c d : Card) : bool := String.ltb (updatedAt c) (updatedAt d).

(** Every event that [m] leaves in the trace, from whatever world it
    starts, satisfies [P]. *)
Definition emits_only {W A : Type} (P : event -> Prop) (m : M W A) : Prop :=
  forall w, Forall P (snd (m w)).

(** ** The display helpers *)

(** What [xform] tells apart in a value that is neither a string, an array
    nor an object: [typeof x !== "object" || x === null].  Which one it is
    plays no role. *)
Inductive primitive : Type :=
| PUndefined
| PNull
| PBoolean (b : bool)
| PNumber (n : Z).

Local Set Warnings "-register-all".

(** A value that [show] is given: the result of a query, a derived state,
    a list of actions or of mutations.  An object is the list of its own
    enumerable properties in the order of [Object.keys], each key once. *)
Inductive value : Type :=
| VString (s : string)
| VPrimitive (p : primitive)
| VArray (elements : list value)
| VObject (entries : list (string * value)).

(** [xform(x, xlate)] *)
Fixpoint xform (x : value) (xlate : string -> string) : value :=
  match x with
  | VString s => VString (xlate s)
  | VPrimitive _ => x
  | VArray l => VArray (map (fun e => xform e xlate) l)
  | VObject o =>
      VObject (map (fun kv => match kv with (k, v) => (k, xform v xlate) end) o)
  end.

(** The strings of a value, from left to right; keys are not among them. *)
Fixpoint strings (x : value) : list string :=
  match x with
  | VString s => [s]
  | VPrimitive _ => []
  | VArray l => flat_map strings l
  | VObject o => flat_map (fun kv => match kv with (_, v) => strings v end) o
  end.

(** The keys of an object are pairwise different, here and below. *)
Fixpoint well_formed (x : value) : Prop :=
  match x with
  | VString _ | VPrimitive _ => True
  | VArray l => fold_right (fun e acc => well_formed e /\ acc) True l
  | VObject o =>
      NoDup (map fst o)
      /\ fold_right (fun kv acc => match kv with (_, v) => well_formed v end /\ acc)
                    True o
  end.

(** A JavaScript string as the sequence of its UTF-16 code units. *)
Definition code_units : Type := list Z.

(** The line terminators of a regular expression: LF, CR, LS and PS. *)
Definition is_line_terminator (c : Z) : bool :=
  (c =? 10) || (c =? 13) || (c =? 8232) || (c =? 8233).

Definition space : Z := 32.

(** [str.replace(/^/mg, "  ")]: with the flags [m] and [g], the empty
    match of [^] is found at the start of the string and behind every line
    terminator. *)
Fixpoint indent_behind (s : code_units) : code_units :=
  match s with
  | [] => []
  | c :: r =>
      if is_line_terminator c
      then c :: space :: space :: indent_behind r
      else c :: indent_behind r
  end.

Definition indent (s : code_units) : code_units :=
  space :: space :: indent_behind s.

(** The lines of a string: what stands between its line terminators. *)
Fixpoint lines_from (line : code_units) (s : code_units) : list code_units :=
  match s with
  | [] => [rev line]
  | c :: r =>
      if is_line_terminator c
      then rev line :: lines_from [] r
      else lines_from (c :: line) r
  end.

Definition lines (s : code_units) : list code_units := lines_from [] s.

(** The line terminators of a string, in order. *)
Definition terminators (s : code_units) : code_units :=
  filter is_line_terminator s.

(** ** More vocabulary *)

(** [l1] is [l2] with some elements left out. *)
Inductive subseq {A : Type} : list A -> list A -> Prop :=
| subseq_nil : subseq [] []
| subseq_skip (x : A) (l1 l2 : list A) : subseq l1 l2 -> subseq l1 (x :: l2)
| subseq_take (x : A) (l1 l2 : list A) : subseq l1 l2 -> subseq (x :: l1) (x :: l2).

(** The cards for which a trace holds a delete mutation, and those for
    which it holds a card query. *)
Definition deleted_ids (t : trace) : list string :=
  flat_map (fun ev => match ev with DeleteProjectCard i => [i] | _ => [] end) t.

Definition looked_up_ids (t : trace) : list string :=
  flat_map (fun ev => match ev with QueryCardPR i => [i] | _ => [] end) t.

(** What only the clean-up of the board does. *)
Definition is_board_event (ev : event) : bool :=
  match ev with
  | QueryBoard | QueryCardPR _ | DeleteProjectCard _ => true
  | _ => false
  end.

(** What the loop over the PRs may leave in the trace. *)
Definition loop_event (args : Args) (prs : list Z) (ev : event) : Prop :=
  match ev with
  | Console _ _ | Display _ => True
  | QueryPRInfo pr => In pr prs /\ shouldRunOn (positional args) pr = true
  | ExecuteActions pr d =>
      In pr prs /\ shouldRunOn (positional args) pr = true /\ d = dry args
  | _ => False
  end.

(** What the clean-up and the closing report may leave in the trace. *)
Definition cleanup_event (ev : event) : Prop :=
  match ev with
  | Console _ _ | QueryBoard | QueryCardPR _ | DeleteProjectCard _ => True
  | _ => False
  end.

(** The columns that the loop over the other columns does not skip. *)
Definition other_columns (columns : list Column) : list Column :=
  filter (fun c => negb (String.eqb (name c) "Recently Merged")) columns.

(** An environment whose card query and card deletion depend on the card
    alone and do not throw. *)
Definition steady {W RawInfo PrInfo D Action Mutation : Type}
    (env : Env W RawInfo PrInfo D Action Mutation)
    (lookup : string -> option CardPR) : Prop :=
  (forall i w, fst (runQueryToGetPRForCardId env i w) = Ret (lookup i)) /\
  (forall i w, fst (mutateDeleteProjectCard env i w) = Ret tt).

(** Three open PRs in a world that counts the calls of its collaborators;
    the query for the second PR fails. *)
Definition env_fetch_throws : Env nat (option Z) Z unit string string :=
  mkEnv nat (option Z) Z unit string string
    (fun w => (Ret ([1; 2; 3], []), S w))
    (fun pr w => (if pr =? 2 then Throw (JsError "rate limited") else Ret (Some pr), S w))
    (fun info => info)
    (fun _ => "null")
    (fun pr w => (if pr =? 1 then Throw (JsError "inconsistent metadata")
                  else Ret ok_state, S w))
    (fun _ _ => (O, Ret []))
    (fun _ _ _ w => (Ret [], S w))
    (fun w => (Ret [empty_archive], S w))
    (fun _ w => (Ret None, S w))
    (fun _ w => (Ret tt, S w)).

(** A board on which the deletion of card [c] is refused and the query for
    card [x] fails. *)
Definition env_refusing : Env nat (option Z) Z unit string string :=
  mkEnv nat (option Z) Z unit string string
    (fun w => (Ret ([], ["e"]), S w))
    (fun pr w => (Ret (Some pr), S w))
    (fun info => info)
    (fun _ => "null")
    (fun _ w => (Ret ok_state, S w))
    (fun _ _ => (O, Ret []))
    (fun _ _ _ w => (Ret [], S w))
    (fun w => (Ret [empty_archive; review_column], S w))
    (fun i w => (if String.eqb i "x" then Throw (JsError "query failed")
                 else Ret (review_lookup i), S w))
    (fun i w => (if String.eqb i "c" then Throw (JsError "deletion refused")
                 else Ret tt, S w)).

(** The selection of the single token "5". *)
Definition only_5 : Args :=
  mkArgs false true None None None None None None [fun n => n =? 5].

(** What [start] itself may leave in the trace: anything but the two
    events of the top level. *)
Definition start_event (ev : event) : Prop :=
  match ev with
  | ErrorValue _ | UsageFailure _ => False
  | _ => True
  end.

(** What the loop over the PRs says about PRs: it names open PRs that the
    selection accepts, and the executor gets the dry-run flag of the
    command line. *)
Definition names_selected_prs (args : Args) (prs : list Z) (ev : event) : Prop :=
  match ev with
  | QueryPRInfo pr => In pr prs /\ shouldRunOn (positional args) pr = true
  | ExecuteActions pr d =>
      In pr prs /\ shouldRunOn (positional args) pr = true /\ d = dry args
  | _ => True
  end.

(** The ids that the loop over the other columns is to look at, column by
    column. *)
Definition stale_cards (cardIDs : list string) (columns : list Column) : list string :=
  flat_map (stale_ids cardIDs) (other_columns columns).

(** [m] times the digit 0. *)
Fixpoint zeros (m : nat) : string :=
  match m with
  | O => EmptyString
  | S m' => String "0" (zeros m')
  end.

(** A trace without what [show] has put into it. *)
Definition quiet (t : trace) : trace :=
  filter (fun ev => match ev with Display _ => false | _ => true end) t.

(** Two command lines that differ at most in the format and in the flags
    that display the raw result, the derived state, the actions and the
    mutations. *)
Definition same_but_for_display (a1 a2 : Args) : Prop :=
  dry a1 = dry a2 /\ cleanup a1 = cleanup a2 /\
  positional a1 = positional a2 /\
  truthy (show_extended a1) = truthy (show_extended a2).

(** Everything on display, and nothing on display. *)
Definition verbose_args : Args :=
  mkArgs false true (Some "json") (Some true) (Some true) None (Some true)
         (Some true) [].

(** What stands in the trace behind a card query, given what the query
    did: nothing when it threw; the deletion of the card when it answered
    a PR whose state is "CLOSED"; the line "Should delete" when it
    answered anything else. *)
Definition follows_lookup (i : string) (o : outcome (option CardPR))
    (behind : trace) : Prop :=
  match o with
  | Throw _ => behind = []
  | Ret info =>
      if confirmed_closed info
      then exists t, behind = DeleteProjectCard i :: t
      else exists t, behind = should_delete_line i (reason info) :: t
  end.

(** A trace of lines and card queries in which a deletion stands only
    right behind the query for the same card. *)
Inductive card_blocks : trace -> Prop :=
| blocks_nil : card_blocks []
| blocks_line (s : stream) (line : string) (t : trace) :
    card_blocks t -> card_blocks (Console s line :: t)
| blocks_query (i : string) (t : trace) :
    card_blocks t -> card_blocks (QueryCardPR i :: t)
| blocks_delete (i : string) (t : trace) :
    card_blocks t -> card_blocks (QueryCardPR i :: DeleteProjectCard i :: t).

(** The layout of an instant: the instant with every digit replaced by 0.
    Two instants of the same layout differ in digits only. *)
Fixpoint layout (s : string) : string :=
  match s with
  | EmptyString => EmptyString
  | String c r => String (if is_digit c then "0"%char else c) (layout r)
  end.

(** The cards have [updatedAt] values of one layout. *)
Definition one_layout (cs : list Card) : bool :=
  match cs with
  | [] => true
  | c :: r =>
      forallb (fun d => String.eqb (layout (updatedAt d)) (layout (updatedAt c))) r
  end.

(** [Number.MAX_SAFE_INTEGER], 2^53 - 1: up to it a JavaScript number
    holds every integer exactly. *)
Definition MAX_SAFE_INTEGER : Z := 9007199254740991.

(** A board that shows the card [a] in two columns, in a world that counts
    the card queries: the PR of the card is open when the first query is
    asked and closed from then on. *)
Definition twice_listed : list Column :=
  [empty_archive;
   mkColumn "Needs Author Action" [mkCard "a" "2021-06-01T00:00:00Z"] 1;
   mkColumn "Waiting for Code Reviews" [mkCard "a" "2021-06-01T00:00:00Z"] 1].

Definition env_closing : Env nat (option Z) Z unit string string :=
  mkEnv nat (option Z) Z unit string string
    (fun w => (Ret ([], []), w))
    (fun pr w => (Ret (Some pr), w))
    (fun info => info)
    (fun _ => "null")
    (fun _ w => (Ret ok_state, w))
    (fun _ _ => (O, Ret []))
    (fun _ _ _ w => (Ret [], w))
    (fun w => (Ret twice_listed, w))
    (fun _ w => (Ret (Some (mkCardPR 12 (if (w <? 1)%nat then "OPEN" else "CLOSED"))),
                 S w))
    (fun _ w => (Ret tt, w)).

(** * Properties *)

(** ** The regular expressions *)

Example match_number_examples :
  map match_number ["5"; "0012"; ""; "12a"; "-3"; "10-12"]
  = [true; true; false; false; false; false].
Proof. reflexivity. Qed.

Example match_range_examples :
  map match_range ["10-12"; "10-"; "-3"; "1-2-3"; "12"; "1-2x"; "007-08"]
  = [Some ("10", "12"); None; None; None; None; None; Some ("007", "08")].
Proof. reflexivity. Qed.

Example to_number_examples :
  map to_number ["5"; "0012"; "10"] = [5; 12; 10].
Proof. reflexivity. Qed.

Example show_Z_examples :
  map show_Z [73; 0; -4] = ["73"; "0"; "-4"].
Proof. reflexivity. Qed.

Lemma all_digits_Forall (s : string) :
  all_digits s = true <-> Forall (fun c => is_digit c = true) (list_ascii_of_string s).
Proof.
  induction s as [|c r IH]; simpl.
  - split; [constructor | reflexivity].
  - rewrite andb_true_iff, IH. split.
    + intros [Hc Hr]. constructor; assumption.
    + intros H. inversion H; subst. split; assumption.
Qed.

Lemma match_number_spec (s : string) :
  match_number s = true <-> decimal_number s.
Proof.
  unfold decimal_number. rewrite <- all_digits_Forall.
  destruct s as [|c r]; simpl.
  - split; [discriminate | intros [H _]; congruence].
  - split; [intros H; split; [discriminate | exact H] | intros [_ H]; exact H].
Qed.

Lemma span_digits_spec (s a b : string) :
  span_digits s = (a, b) ->
  s = a ++ b /\ all_digits a = true /\
  match b with
  | EmptyString => True
  | String c _ => is_digit c = false
  end.
Proof.
  revert a b. induction s as [|c r IH]; simpl; intros a b H.
  - inversion H; subst. repeat split.
  - destruct (is_digit c) eqn:Hc.
    + destruct (span_digits r) as [a' b'] eqn:Hr.
      inversion H; subst. destruct (IH a' b eq_refl) as (E & Ha & Hb).
      simpl. rewrite Hc, Ha, <- E. repeat split. exact Hb.
    + inversion H; subst. simpl. rewrite Hc. repeat split.
Qed.

Lemma span_digits_dash (a b : string) :
  all_digits a = true -> span_digits (a ++ String "-" b) = (a, String "-" b).
Proof.
  induction a as [|c r IH]; simpl; intros H.
  - reflexivity.
  - apply andb_true_iff in H as [Hc Hr]. rewrite Hc, (IH Hr). reflexivity.
Qed.

Lemma match_range_sound (s a b : string) :
  match_range s = Some (a, b) ->
  decimal_number a /\ decimal_number b /\ s = a ++ "-" ++ b.
Proof.
  unfold match_range. destruct (span_digits s) as [lo rest] eqn:Hs.
  apply span_digits_spec in Hs as (E & Hlo & _).
  destruct lo as [|c lo]; [discriminate|].
  destruct rest as [|d hi]; [discriminate|].
  destruct (Ascii.eqb d "-") eqn:Hd.
  - apply Ascii.eqb_eq in Hd. subst d.
    destruct (match_number hi) eqn:Hhi; [|discriminate].
    intros H. inversion H; subst. split; [|split].
    + apply match_number_spec. exact Hlo.
    + apply match_number_spec. exact Hhi.
    + reflexivity.
  - intros H. exfalso. revert H Hd.
    destruct d as [[] [] [] [] [] [] [] []]; simpl; try discriminate.
Qed.

Lemma match_range_complete (a b : string) :
  decimal_number a -> decimal_number b ->
  match_range (a ++ "-" ++ b) = Some (a, b).
Proof.
  intros Ha Hb. apply match_number_spec in Ha, Hb.
  unfold match_range. simpl append at 1.
  change ("-" ++ b) with (String "-" b).
  rewrite span_digits_dash.
  - destruct a; [discriminate|]. rewrite Hb. reflexivity.
  - destruct a; [discriminate | exact Ha].
Qed.

(** A digit string never matches the range expression: the two branches of
    the coercion do not overlap. *)
Lemma number_is_not_range (s : string) :
  decimal_number s -> ~ decimal_range s.
Proof.
  intros [_ Hs] (a & b & _ & _ & E). subst s.
  rewrite Forall_forall in Hs.
  specialize (Hs "-"%char). 
  assert (In "-"%char (list_ascii_of_string (a ++ "-" ++ b))) as Hin.
  { clear. induction a; simpl; auto. }
  apply Hs in Hin. discriminate.
Qed.

Lemma coerce_token_throws_iff (s : string) :
  coerce_token (TStr s) = Throw (JsError (bad_token_message s))
  <-> ~ decimal_number s /\ ~ decimal_range s.
Proof.
  unfold coerce_token. split.
  - destruct (match_number s) eqn:Hn; [discriminate|].
    destruct (match_range s) as [[a b]|] eqn:Hr; [discriminate|].
    intros _. split.
    + rewrite <- match_number_spec. congruence.
    + intros (a & b & Ha & Hb & E). subst s.
      rewrite (match_range_complete a b Ha Hb) in Hr. discriminate.
  - intros [Hn Hr].
    destruct (match_number s) eqn:En.
    + apply match_number_spec in En. contradiction.
    + destruct (match_range s) as [[a b]|] eqn:Er; [|reflexivity].
      apply match_range_sound in Er as (Ha & Hb & E).
      exfalso. apply Hr. exists a, b. auto.
Qed.

(** ** The selection predicate *)

Lemma coerce_token_cases (t : token) :
  (exists p, coerce_token t = Ret p) \/
  (exists s, t = TStr s /\ coerce_token t = Throw (JsError (bad_token_message s))).
Proof.
  destruct t as [k|s]; simpl.
  - left. eauto.
  - destruct (match_number s); [left; eauto|].
    destruct (match_range s) as [[a b]|]; [left; eauto | right; eauto].
Qed.

(** The coercion throws exactly when some element is rejected, and then
    with the message of the first such element. *)
Lemma coerce_throws (ts : list token) (t : token) (e : exn) :
  In t ts -> coerce_token t = Throw e ->
  exists s, In (TStr s) ts /\ coerce ts = Throw (JsError (bad_token_message s)).
Proof.
  induction ts as [|u r IH]; simpl; [contradiction|].
  intros Hin Ht.
  destruct (coerce_token_cases u) as [[p Hp]|(s & -> & Hs)].
  - rewrite Hp. destruct Hin as [->|Hin]; [congruence|].
    destruct (IH Hin Ht) as (s & Hs & Hc). rewrite Hc. eauto.
  - rewrite Hs. eauto.
Qed.

Lemma coerce_ret (ts : list token) (ps : list (Z -> bool)) :
  coerce ts = Ret ps -> Forall2 (fun t p => coerce_token t = Ret p) ts ps.
Proof.
  revert ps. induction ts as [|t r IH]; simpl; intros ps H.
  - inversion H. constructor.
  - destruct (coerce_token t) as [p|] eqn:Ht; [|discriminate].
    destruct (coerce r) as [qs|]; [|discriminate].
    inversion H; subst. constructor; auto.
Qed.

Lemma shouldRunOn_cons (p : Z -> bool) (ps : list (Z -> bool)) (n : Z) :
  shouldRunOn (p :: ps) n = true <-> exists q, In q (p :: ps) /\ q n = true.
Proof.
  unfold shouldRunOn. rewrite existsb_exists. reflexivity.
Qed.

(** C6: the predicate built from the tokens "5" and "10-12" accepts exactly
    5, 10, 11 and 12; the one built from no token accepts every number; and
    whatever the tokens, a number is accepted as soon as one token accepts
    it (when there is a token at all): the tokens combine by union. *)
Theorem selection_is_union :
  (exists ps, coerce [TStr "5"; TStr "10-12"] = Ret ps /\
     forall n, shouldRunOn ps n = true <-> (n = 5 \/ n = 10 \/ n = 11 \/ n = 12)) /\
  (coerce [] = Ret [] /\ forall n, shouldRunOn [] n = true) /\
  (forall ts n,
     match coerce ts with
     | Ret ps =>
         shouldRunOn ps n = true <->
         (ts = [] \/ exists t p, In t ts /\ coerce_token t = Ret p /\ p n = true)
     | Throw _ => True
     end).
Proof.
  split; [|split].
  - eexists. split; [reflexivity|].
    intros n. unfold shouldRunOn, existsb.
    change (to_number "5") with 5.
    change (to_number "10") with 10. change (to_number "12") with 12.
    rewrite !orb_true_iff, andb_true_iff, Z.eqb_eq, !Z.leb_le.
    split; [intros [?|[?|?]] | intros ?]; try discriminate; lia.
  - split; reflexivity.
  - intros ts n. destruct (coerce ts) as [ps|] eqn:Hc; [|exact I].
    apply coerce_ret in Hc.
    destruct Hc as [|t p ts' ps' Ht Hrest].
    + split; [left; reflexivity | reflexivity].
    + rewrite shouldRunOn_cons. 
      assert (Forall2 (fun t p => coerce_token t = Ret p) (t :: ts') (p :: ps')) as HF
        by (constructor; assumption).
      clear Ht Hrest. split.
      * intros (q & Hq & Hn). right.
        revert HF Hq. generalize (t :: ts') (p :: ps').
        induction 1 as [|t0 p0 l l' H0 HF IH]; simpl; [contradiction|].
        intros [->|Hq].
        -- exists t0, q. auto.
        -- destruct (IH Hq) as (t1 & p1 & ? & ? & ?). exists t1, p1. auto.
      * intros [Habs|(t1 & p1 & Hin & Hc & Hn)]; [discriminate|].
        revert HF Hin. generalize (t :: ts') (p :: ps').
        induction 1 as [|t0 p0 l l' H0 HF IH]; simpl; [contradiction|].
        intros [->|Hin].
        -- exists p0. split; [left; reflexivity|congruence].
        -- destruct (IH Hin) as (q & ? & ?). exists q. auto.
Qed.

(** ** Rejected arguments *)

(** C10: a string token that is neither a decimal number nor a decimal range
    makes its coercion throw "bad PR or PR range argument"; the coercion of
    the whole argument list then throws too (for the first such token), and
    the program exits with status 1 in the world it started in, having
    asked and submitted nothing. *)
Theorem bad_token_aborts_before_start
    {W RawInfo PrInfo D Action Mutation : Type}
    (env : Env W RawInfo PrInfo D Action Mutation)
    (flags : Args) (ts : list token) (s : string) (w : W) :
  In (TStr s) ts -> ~ decimal_number s -> ~ decimal_range s ->
  coerce_token (TStr s) = Throw (JsError (bad_token_message s)) /\
  exists s',
    In (TStr s') ts /\
    coerce ts = Throw (JsError (bad_token_message s')) /\
    program env flags ts w = (1, w, [UsageFailure (bad_token_message s')]).
Proof.
  intros Hin Hn Hr.
  assert (coerce_token (TStr s) = Throw (JsError (bad_token_message s))) as Ht
    by (apply coerce_token_throws_iff; split; assumption).
  split; [exact Ht|].
  destruct (coerce_throws ts _ _ Hin Ht) as (s' & Hin' & Hc).
  exists s'. split; [exact Hin'|]. split; [exact Hc|].
  unfold program. rewrite Hc. reflexivity.
Qed.

Lemma bad_token_aborts_before_start_witness :
  coerce_token (TStr "12-x") = Throw (JsError (bad_token_message "12-x")) /\
  exists s',
    In (TStr s') [TStr "7"; TStr "12-x"; TStr "3-4"] /\
    coerce [TStr "7"; TStr "12-x"; TStr "3-4"]
    = Throw (JsError (bad_token_message s')) /\
    program env_archive73 default_args [TStr "7"; TStr "12-x"; TStr "3-4"] tt
    = (1, tt, [UsageFailure (bad_token_message s')]).
Proof.
  apply (bad_token_aborts_before_start env_archive73 default_args
           [TStr "7"; TStr "12-x"; TStr "3-4"] "12-x" tt).
  - simpl. auto.
  - rewrite <- match_number_spec. simpl. discriminate.
  - intros (a & b & Ha & Hb & E).
    pose proof (match_range_complete a b Ha Hb) as Hm.
    rewrite <- E in Hm. discriminate Hm.
Defined.

(** ** The loop over the PRs *)

Section Loop.

Context {W RawInfo PrInfo D Action Mutation : Type}.
Variable env : Env W RawInfo PrInfo D Action Mutation.
Variable args : Args.

Lemma bind_Ret {A B : Type} (m : M W A) (f : A -> M W B) w a w1 t1 :
  m w = (Ret a, w1, t1) ->
  bind W m f w = (let '(o, w2, t2) := f a w1 in (o, w2, t1 +++ t2)).
Proof. intros H. unfold bind. rewrite H. destruct (f a w1) as [[o w2] t2]. reflexivity. Qed.

Lemma bind_Throw {A B : Type} (m : M W A) (f : A -> M W B) w e w1 t1 :
  m w = (Throw e, w1, t1) -> bind W m f w = (Throw e, w1, t1).
Proof. intros H. unfold bind. rewrite H. reflexivity. Qed.

Lemma repeat_m_show (k : nat) (title : string) (w : W) :
  repeat_m W k (show W title) w = (Ret tt, w, repeat (Display title) k).
Proof.
  induction k as [|k IH]; [reflexivity|].
  change (repeat_m W (S k) (show W title) w)
    with (bind W (show W title) (fun _ => repeat_m W k (show W title)) w).
  rewrite (bind_Ret _ _ w tt w [Display title]) by reflexivity.
  rewrite IH. reflexivity.
Qed.

Lemma when_show (b : bool) (title : string) (w : W) :
  when W b (show W title) w = (Ret tt, w, shown b title).
Proof. destruct b; reflexivity. Qed.

Ltac flags :=
  destruct (show_raw args) as [[]|], (show_basic args) as [[]|],
           (show_actions args) as [[]|].

(** A PR that the selection rejects leaves no trace. *)
Lemma process_pr_not_selected prs pr failures w :
  shouldRunOn (positional args) pr = false ->
  process_pr env args prs pr failures w = (Ret failures, w, []).
Proof. intros H. unfold process_pr. rewrite H. reflexivity. Qed.

Lemma process_pr_fetch_throws prs pr failures w e w1 :
  shouldRunOn (positional args) pr = true ->
  getPRInfo env pr w = (Throw e, w1) ->
  process_pr env args prs pr failures w
  = (Throw e, w1, [processing_line prs pr; QueryPRInfo pr]).
Proof.
  intros Hsel Hget. unfold process_pr. rewrite Hsel. simpl.
  unfold bind, console, emit, call. rewrite Hget. reflexivity.
Qed.

Lemma process_pr_missing prs pr failures w info w1 :
  shouldRunOn (positional args) pr = true ->
  getPRInfo env pr w = (Ret info, w1) ->
  pullRequest env info = None ->
  process_pr env args prs pr failures w
  = (Ret failures, w1, prelude args prs pr +++ [no_pr_line (stringify env info)]).
Proof.
  intros Hsel Hget Hpr. unfold process_pr, prelude. rewrite Hsel. simpl.
  unfold bind, console, emit, call. rewrite Hget, when_show, Hpr.
  simpl. rewrite <- ?app_assoc. reflexivity.
Qed.

Lemma process_pr_derive_throws prs pr failures w info w1 prInfo e w2 :
  shouldRunOn (positional args) pr = true ->
  getPRInfo env pr w = (Ret info, w1) ->
  pullRequest env info = Some prInfo ->
  deriveStateForPR env prInfo w1 = (Throw e, w2) ->
  process_pr env args prs pr failures w
  = (Ret (failures ++ [(e, pr)])%list, w2, prelude args prs pr +++ [error_line e]).
Proof.
  intros Hsel Hget Hpr Hd. unfold process_pr, prelude. rewrite Hsel. simpl.
  unfold bind, console, emit, call, try_catch.
  rewrite Hget, when_show, Hpr, Hd.
  simpl. rewrite <- ?app_assoc. reflexivity.
Qed.

Lemma process_pr_plan_throws prs pr failures w info w1 prInfo st w2 k e :
  shouldRunOn (positional args) pr = true ->
  getPRInfo env pr w = (Ret info, w1) ->
  pullRequest env info = Some prInfo ->
  deriveStateForPR env prInfo w1 = (Ret st, w2) ->
  computeActions env st (truthy (show_extended args)) = (k, Throw e) ->
  process_pr env args prs pr failures w
  = (Throw e, w2, planning args prs pr st k).
Proof.
  intros Hsel Hget Hpr Hd Hc.
  unfold process_pr, planning, prelude, state_lines, sunk_lines.
  rewrite Hsel. simpl.
  unfold bind, console, emit, call, try_catch, lift.
  rewrite Hget, when_show, Hpr, Hd, when_show.
  destruct st as [m|[m|] d]; simpl; rewrite Hc;
    destruct (truthy (show_extended args)); simpl; rewrite ?repeat_m_show;
    flags; simpl; rewrite ?app_nil_r; reflexivity.
Qed.

Lemma process_pr_execute_throws
    prs pr failures w info w1 prInfo st w2 k actions e w3 :
  shouldRunOn (positional args) pr = true ->
  getPRInfo env pr w = (Ret info, w1) ->
  pullRequest env info = Some prInfo ->
  deriveStateForPR env prInfo w1 = (Ret st, w2) ->
  computeActions env st (truthy (show_extended args)) = (k, Ret actions) ->
  executePrActions env actions prInfo (dry args) w2 = (Throw e, w3) ->
  process_pr env args prs pr failures w
  = (Throw e, w3, executing args prs pr st k).
Proof.
  intros Hsel Hget Hpr Hd Hc He.
  unfold process_pr, executing, planning, prelude, state_lines, sunk_lines.
  rewrite Hsel. simpl.
  unfold bind, console, emit, call, try_catch, lift.
  rewrite Hget, when_show, Hpr, Hd, when_show.
  destruct st as [m|[m|] d]; simpl; rewrite Hc;
    destruct (truthy (show_extended args)); simpl; rewrite ?repeat_m_show;
    rewrite when_show, He;
    flags; simpl; rewrite <- ?app_assoc; simpl; rewrite ?app_nil_r; reflexivity.
Qed.

Lemma process_pr_done
    prs pr failures w info w1 prInfo st w2 k actions mutations w3 :
  shouldRunOn (positional args) pr = true ->
  getPRInfo env pr w = (Ret info, w1) ->
  pullRequest env info = Some prInfo ->
  deriveStateForPR env prInfo w1 = (Ret st, w2) ->
  computeActions env st (truthy (show_extended args)) = (k, Ret actions) ->
  executePrActions env actions prInfo (dry args) w2 = (Ret mutations, w3) ->
  process_pr env args prs pr failures w
  = (Ret failures, w3,
     executing args prs pr st k
     +++ shown (nullish (show_mutations args) (dry args)) "Mutations").
Proof.
  intros Hsel Hget Hpr Hd Hc He.
  unfold process_pr, executing, planning, prelude, state_lines, sunk_lines.
  rewrite Hsel. simpl.
  unfold bind, console, emit, call, try_catch, lift.
  rewrite Hget, when_show, Hpr, Hd, when_show.
  destruct st as [m|[m|] d]; simpl; rewrite Hc;
    destruct (truthy (show_extended args)); simpl; rewrite ?repeat_m_show;
    rewrite when_show, He, when_show;
    flags; simpl; rewrite <- ?app_assoc; simpl; rewrite ?app_nil_r; reflexivity.
Qed.

(** One turn of the loop that returns, and the turns after it. *)
Lemma process_prs_step prs pr rest failures w failures' w1 t :
  process_pr env args prs pr failures w = (Ret failures', w1, t) ->
  process_prs env args prs (pr :: rest) failures w
  = (let '(o, w2, t') := process_prs env args prs rest failures' w1 in
     (o, w2, t +++ t')).
Proof. intros H. simpl. apply bind_Ret. exact H. Qed.

(** One turn of the loop that throws: no further turn. *)
Lemma process_prs_abort prs pr rest failures w e w1 t :
  process_pr env args prs pr failures w = (Throw e, w1, t) ->
  process_prs env args prs (pr :: rest) failures w = (Throw e, w1, t).
Proof. intros H. simpl. apply bind_Throw. exact H. Qed.

End Loop.

(** ** What one PR can do to the run *)

(** C9: when the query for a selected PR yields no pull request, the driver
    prints a line on the error stream and goes on to the next PR: the
    failure list is unchanged, the trace of this PR holds the query and
    lines of output only (no planner, no executor, no mutation), and the
    turn returns rather than throws, so the rest of the loop runs from
    there. *)
Theorem missing_pr_is_skipped
    {W RawInfo PrInfo D Action Mutation : Type}
    (env : Env W RawInfo PrInfo D Action Mutation) (args : Args)
    (prs : list Z) (pr : Z) (rest : list Z) (failures : list (exn * Z))
    (w : W) (info : RawInfo) (w1 : W) :
  shouldRunOn (positional args) pr = true ->
  getPRInfo env pr w = (Ret info, w1) ->
  pullRequest env info = None ->
  let t := [processing_line prs pr; QueryPRInfo pr]
           +++ shown (truthy (show_raw args)) "Raw Query Result"
           +++ [no_pr_line (stringify env info)] in
  process_pr env args prs pr failures w = (Ret failures, w1, t) /\
  process_prs env args prs (pr :: rest) failures w
  = (let '(o, w2, t') := process_prs env args prs rest failures w1 in
     (o, w2, t +++ t')).
Proof.
  intros Hsel Hget Hpr t.
  assert (process_pr env args prs pr failures w = (Ret failures, w1, t)) as Hstep.
  { rewrite (process_pr_missing env args prs pr failures w info w1 Hsel Hget Hpr).
    unfold t, prelude. rewrite <- app_assoc. reflexivity. }
  split; [exact Hstep|].
  apply process_prs_step. exact Hstep.
Qed.

Lemma missing_pr_is_skipped_witness :
  process_pr env_missing_pr default_args [7] 7 [] tt
  = (Ret [], tt,
     [processing_line [7] 7; QueryPRInfo 7; no_pr_line "null"]) /\
  run env_missing_pr default_args tt
  = (0, tt,
     opening +++ [processing_line [7] 7; QueryPRInfo 7; no_pr_line "null"]
     +++ [Console Log "Cleaning up cards"; QueryBoard; Console Log "Done"]).
Proof.
  split.
  - apply (missing_pr_is_skipped env_missing_pr default_args [7] 7 [] [] tt None tt);
      reflexivity.
  - reflexivity.
Defined.

(** A throw of the loop ends [start]: no clean-up, exit code 1. *)
Lemma run_loop_throws
    {W RawInfo PrInfo D Action Mutation : Type}
    (env : Env W RawInfo PrInfo D Action Mutation) (args : Args)
    (w0 : W) (prs : list Z) (cardIDs : list string) (w : W)
    (e : exn) (w' : W) (t : trace) :
  getAllOpenPRsAndCardIDs env w0 = (Ret (prs, cardIDs), w) ->
  process_prs env args prs prs [] w = (Throw e, w', t) ->
  run env args w0 = (1, w', opening +++ t +++ [ErrorValue e]).
Proof.
  intros Hget Hloop. unfold run, start, bind, console, emit, call.
  rewrite Hget, Hloop. simpl. reflexivity.
Qed.

(** C3, as the code has it: an exception of the derive stage is caught,
    recorded as (error, PR number) at the end of the failure list, and the
    loop goes on with the next PR.  An exception of the plan stage or of
    the execute stage (a failed submission of a mutation among them) is
    not caught: the loop ends there with that exception, and a loop that
    ends so ends the run with exit code 1. *)
Theorem derive_failures_recorded_later_ones_abort
    {W RawInfo PrInfo D Action Mutation : Type}
    (env : Env W RawInfo PrInfo D Action Mutation) (args : Args)
    (prs : list Z) (pr : Z) (rest : list Z) (failures : list (exn * Z))
    (w : W) (info : RawInfo) (w1 : W) (prInfo : PrInfo) :
  shouldRunOn (positional args) pr = true ->
  getPRInfo env pr w = (Ret info, w1) ->
  pullRequest env info = Some prInfo ->
  (forall e w2,
     deriveStateForPR env prInfo w1 = (Throw e, w2) ->
     process_prs env args prs (pr :: rest) failures w
     = (let '(o, w3, t) :=
          process_prs env args prs rest (failures ++ [(e, pr)])%list w2 in
        (o, w3, (prelude args prs pr +++ [error_line e]) +++ t))) /\
  (forall st w2 k e,
     deriveStateForPR env prInfo w1 = (Ret st, w2) ->
     computeActions env st (truthy (show_extended args)) = (k, Throw e) ->
     process_prs env args prs (pr :: rest) failures w
     = (Throw e, w2, planning args prs pr st k)) /\
  (forall st w2 k actions e w3,
     deriveStateForPR env prInfo w1 = (Ret st, w2) ->
     computeActions env st (truthy (show_extended args)) = (k, Ret actions) ->
     executePrActions env actions prInfo (dry args) w2 = (Throw e, w3) ->
     process_prs env args prs (pr :: rest) failures w
     = (Throw e, w3, executing args prs pr st k)) /\
  (forall w0 cardIDs ws e w' t,
     getAllOpenPRsAndCardIDs env w0 = (Ret (prs, cardIDs), ws) ->
     process_prs env args prs prs [] ws = (Throw e, w', t) ->
     run env args w0 = (1, w', opening +++ t +++ [ErrorValue e])).
Proof.
  intros Hsel Hget Hpr. repeat split.
  - intros e w2 Hd. apply process_prs_step.
    apply (process_pr_derive_throws env args prs pr failures w info w1 prInfo e w2);
      assumption.
  - intros st w2 k e Hd Hc. apply process_prs_abort.
    apply (process_pr_plan_throws env args prs pr failures w info w1 prInfo st w2 k e);
      assumption.
  - intros st w2 k actions e w3 Hd Hc He. apply process_prs_abort.
    apply (process_pr_execute_throws env args prs pr failures w info w1 prInfo
             st w2 k actions e w3); assumption.
  - intros w0 cardIDs ws e w' t Hall Hloop.
    apply (run_loop_throws env args w0 prs cardIDs ws e w' t); assumption.
Qed.

(** ** The clean-up of the board *)

Lemma insert_card_length (c : Card) (l : list Card) :
  List.length (insert_card c l) = S (List.length l).
Proof.
  induction l as [|d r IH]; simpl; [reflexivity|].
  destruct (localeCompare (updatedAt c) (updatedAt d) <=? 0); simpl; congruence.
Qed.

Lemma sort_cards_length (l : list Card) :
  List.length (sort_cards l) = List.length l.
Proof.
  induction l as [|c r IH]; simpl; [reflexivity|].
  rewrite insert_card_length, IH. reflexivity.
Qed.

Lemma afterFirst50_length (l : list Card) :
  List.length (afterFirst50 l) = (List.length l - 50)%nat.
Proof. unfold afterFirst50. rewrite length_skipn, sort_cards_length. reflexivity. Qed.

Lemma find_column_none (columns : list Column) :
  (forall c, In c columns -> name c <> "Recently Merged") ->
  find (fun c => String.eqb (name c) "Recently Merged") columns = None.
Proof.
  induction columns as [|c r IH]; simpl; intros H; [reflexivity|].
  destruct (String.eqb (name c) "Recently Merged") eqn:E.
  - apply String.eqb_eq in E. exfalso. apply (H c); auto.
  - apply IH. intros d Hd. apply H. auto.
Qed.

Section Cleanup.

Context {W RawInfo PrInfo D Action Mutation : Type}.
Variable env : Env W RawInfo PrInfo D Action Mutation.

Lemma deleteObject_unconditional (i : string) (w : W) :
  deleteObject env i None w
  = (let (o, w1) := mutateDeleteProjectCard env i w in
     (o, w1, [DeleteProjectCard i])).
Proof. reflexivity. Qed.

(** What [deleteObject] does with the third argument of the loop over
    the other columns. *)
Lemma deleteObject_shoulda (i : string) (info : option CardPR) (w : W) :
  deleteObject env i (shoulda_of info) w
  = if confirmed_closed info
    then (let (o, w1) := mutateDeleteProjectCard env i w in
          (o, w1, [DeleteProjectCard i]))
    else (Ret tt, w, [should_delete_line i (reason info)]).
Proof.
  destruct info as [pr|]; simpl; [|reflexivity].
  unfold shoulda_of. destruct (String.eqb (state pr) "CLOSED"); reflexivity.
Qed.

Lemma check_id_run (i : string) (w : W) :
  check_id env i w
  = match runQueryToGetPRForCardId env i w with
    | (Throw e, w1) => (Throw e, w1, [QueryCardPR i])
    | (Ret info, w1) =>
        if confirmed_closed info
        then (let (o, w2) := mutateDeleteProjectCard env i w1 in
              (o, w2, [QueryCardPR i; DeleteProjectCard i]))
        else (Ret tt, w1, [QueryCardPR i; should_delete_line i (reason info)])
    end.
Proof.
  unfold check_id, bind, call.
  destruct (runQueryToGetPRForCardId env i w) as [[info|e] w1]; [|reflexivity].
  rewrite deleteObject_shoulda.
  destruct (confirmed_closed info); [|reflexivity].
  destruct (mutateDeleteProjectCard env i w1) as [o w2]. reflexivity.
Qed.

Lemma print_failures_run (failures : list (exn * Z)) (w : W) :
  print_failures failures w = (Ret tt, w, failure_lines failures).
Proof.
  induction failures as [|[e pr] r IH]; [reflexivity|].
  simpl. unfold bind, console, emit. rewrite IH. reflexivity.
Qed.

Lemma report_run (failures : list (exn * Z)) (w : W) :
  report failures w
  = match failures with
    | [] => (Ret tt, w, [Console Log "Done"])
    | (e0, _) :: _ => (Throw e0, w, failed_header :: failure_lines failures)
    end.
Proof.
  destruct failures as [|[e0 pr0] r]; [reflexivity|].
  unfold report. 
  rewrite (bind_Ret _ _ w tt w [failed_header]) by reflexivity.
  rewrite (bind_Ret _ _ w tt w (failure_lines ((e0, pr0) :: r)))
    by apply print_failures_run.
  simpl. rewrite app_nil_r. reflexivity.
Qed.

Lemma reduce_recently_merged_missing (columns : list Column) (w : W) :
  (forall c, In c columns -> name c <> "Recently Merged") ->
  reduce_recently_merged env columns w
  = (Throw (missing_column_error columns), w, []).
Proof.
  intros H. unfold reduce_recently_merged.
  rewrite (find_column_none columns H). reflexivity.
Qed.

Lemma reduce_recently_merged_found (columns : list Column) (rm : Column) (w : W) :
  find (fun c => String.eqb (name c) "Recently Merged") columns = Some rm ->
  reduce_recently_merged env columns w
  = if (50 <? List.length (cards rm))%nat
    then (let '(o, w1, t) := delete_cards env (afterFirst50 (cards rm)) w in
          (o, w1,
           cutting_line
           :: (if Z.of_nat (List.length (cards rm)) <? totalCount rm
               then [unseen_warning (totalCount rm - Z.of_nat (List.length (cards rm)))]
               else [])
           +++ t))
    else (Ret tt, w, []).
Proof.
  intros H. unfold reduce_recently_merged. rewrite H.
  rewrite afterFirst50_length.
  destruct (50 <? List.length (cards rm))%nat eqn:E.
  - apply Nat.ltb_lt in E.
    replace (0 <? Z.of_nat (List.length (cards rm) - 50)) with true
      by (symmetry; apply Z.ltb_lt; lia).
    unfold bind, console, emit, when.
    destruct (Z.of_nat (List.length (cards rm)) <? totalCount rm);
      simpl; destruct (delete_cards env (afterFirst50 (cards rm)) w) as [[o w1] t];
      reflexivity.
  - apply Nat.ltb_ge in E.
    replace (0 <? Z.of_nat (List.length (cards rm) - 50)) with false
      by (symmetry; apply Z.ltb_ge; lia).
    reflexivity.
Qed.

(** The board without its archive column: the clean-up throws at once. *)
Lemma clean_board_missing (cardIDs : list string) (w : W)
    (columns : list Column) (w1 : W) :
  getProjectBoardCards env w = (Ret columns, w1) ->
  (forall c, In c columns -> name c <> "Recently Merged") ->
  clean_board env cardIDs w
  = (Throw (missing_column_error columns), w1,
     [Console Log "Cleaning up cards"; QueryBoard]).
Proof.
  intros Hb Hno. unfold clean_board.
  rewrite (bind_Ret _ _ w tt w [Console Log "Cleaning up cards"]) by reflexivity.
  rewrite (bind_Ret _ _ w columns w1 [QueryBoard])
    by (unfold call; rewrite Hb; reflexivity).
  rewrite (bind_Throw _ _ w1 (missing_column_error columns) w1 [])
    by (apply reduce_recently_merged_missing; exact Hno).
  reflexivity.
Qed.

Variable args : Args.

(** [start], once the loop over the PRs has returned. *)
Lemma run_after_loop (w0 : W) (prs : list Z) (cardIDs : list string)
    (w1 : W) (failures : list (exn * Z)) (w2 : W) (t : trace) :
  getAllOpenPRsAndCardIDs env w0 = (Ret (prs, cardIDs), w1) ->
  process_prs env args prs prs [] w1 = (Ret failures, w2, t) ->
  run env args w0
  = match finish env args cardIDs failures w2 with
    | (Ret _, w3, t') => (0, w3, opening +++ t +++ t')
    | (Throw e, w3, t') => (1, w3, opening +++ t +++ t' +++ [ErrorValue e])
    end.
Proof.
  intros Hall Hloop. unfold run, start, bind, console, emit, call.
  rewrite Hall, Hloop.
  destruct (finish env args cardIDs failures w2) as [[[u|e] w3] t']; simpl.
  - reflexivity.
  - rewrite <- app_assoc. reflexivity.
Qed.

End Cleanup.

(** ** The sort of the archive cards *)

(** The comparison of strings is the one the library proves to be a
    strict order. *)
Lemma compare_spec (a b : string) :
  CompSpec eq OrdersEx.String_as_OT.lt a b (String.compare a b).
Proof. exact (OrdersEx.String_as_OT.compare_spec a b). Qed.

Lemma leb_trans (a b c : string) :
  String.leb a b = true -> String.leb b c = true -> String.leb a c = true.
Proof.
  unfold String.leb. intros H1 H2.
  destruct (compare_spec a c) as [Hac|Hac|Hac]; try reflexivity.
  destruct (compare_spec a b) as [Hab|Hab|Hab]; try discriminate H1;
    destruct (compare_spec b c) as [Hbc|Hbc|Hbc]; try discriminate H2;
    clear H1 H2; exfalso.
  - subst. exact (StrictOrder_Irreflexive c Hac).
  - subst. exact (StrictOrder_Irreflexive b (StrictOrder_Transitive _ _ _ Hbc Hac)).
  - subst. exact (StrictOrder_Irreflexive a (StrictOrder_Transitive _ _ _ Hab Hac)).
  - exact (StrictOrder_Irreflexive a
             (StrictOrder_Transitive _ _ _ Hab
                (StrictOrder_Transitive _ _ _ Hbc Hac))).
Qed.

Lemma localeCompare_le (a b : string) :
  (localeCompare a b <=? 0) = String.leb a b.
Proof. unfold localeCompare, String.leb. destruct (String.compare a b); reflexivity. Qed.

Lemma localeCompare_gt (a b : string) :
  (localeCompare a b <=? 0) = false -> String.leb b a = true.
Proof.
  rewrite localeCompare_le. intros H.
  destruct (String.leb_total a b) as [Hab|Hba]; congruence.
Qed.

Lemma insert_card_perm (c : Card) (l : list Card) :
  Permutation (insert_card c l) (c :: l).
Proof.
  induction l as [|d r IH]; simpl; [reflexivity|].
  destruct (localeCompare (updatedAt c) (updatedAt d) <=? 0); [reflexivity|].
  rewrite IH. apply perm_swap.
Qed.

Lemma sort_cards_perm (l : list Card) : Permutation (sort_cards l) l.
Proof.
  induction l as [|c r IH]; simpl; [reflexivity|].
  rewrite insert_card_perm, IH. reflexivity.
Qed.

Lemma insert_card_sorted (c : Card) (l : list Card) :
  StronglySorted (fun x y => String.leb (updatedAt x) (updatedAt y) = true) l ->
  StronglySorted (fun x y => String.leb (updatedAt x) (updatedAt y) = true)
                 (insert_card c l).
Proof.
  induction 1 as [|d r Hr IH Hd]; simpl.
  - repeat constructor.
  - destruct (localeCompare (updatedAt c) (updatedAt d) <=? 0) eqn:E.
    + rewrite localeCompare_le in E. constructor.
      * constructor; assumption.
      * constructor; [exact E|].
        rewrite Forall_forall in *. intros x Hx.
        eapply leb_trans; [exact E | apply Hd; exact Hx].
    + apply localeCompare_gt in E. constructor; [exact IH|].
      rewrite Forall_forall in *. intros x Hx.
      apply (Permutation_in _ (insert_card_perm c r)) in Hx.
      destruct Hx as [<-|Hx]; [exact E | apply Hd; exact Hx].
Qed.

Lemma sort_cards_sorted (l : list Card) :
  StronglySorted (fun x y => String.leb (updatedAt x) (updatedAt y) = true)
                 (sort_cards l).
Proof.
  induction l as [|c r IH]; simpl; [constructor|].
  apply insert_card_sorted. exact IH.
Qed.

Lemma sorted_app_le {A : Type} (R : A -> A -> Prop) (l1 l2 : list A) :
  StronglySorted R (l1 ++ l2)%list ->
  forall x y, In x l1 -> In y l2 -> R x y.
Proof.
  induction l1 as [|a l1 IH]; simpl; intros H x y Hx Hy; [contradiction|].
  inversion H as [|? ? Hs Hall]; subst.
  destruct Hx as [<-|Hx].
  - rewrite Forall_forall in Hall. apply Hall. apply in_or_app. auto.
  - apply IH; assumption.
Qed.

(** For cards whose [updatedAt] values are of one layout: those that the
    code keeps and those that it deletes are together the fetched cards,
    at most 50 are kept, and no kept card was updated after a deleted one.
    The code deletes the newest cards. *)
Lemma archive_cut_keeps_the_oldest (cs : list Card) :
  one_layout cs = true ->
  Permutation (first50 cs ++ afterFirst50 cs)%list cs /\
  List.length (first50 cs) = Nat.min 50 (List.length cs) /\
  forall kept deleted,
    In kept (first50 cs) -> In deleted (afterFirst50 cs) ->
    String.leb (updatedAt kept) (updatedAt deleted) = true.
Proof.
  intros _. unfold first50, afterFirst50. split; [|split].
  - rewrite firstn_skipn. apply sort_cards_perm.
  - rewrite length_firstn, sort_cards_length. reflexivity.
  - apply sorted_app_le. rewrite firstn_skipn. apply sort_cards_sorted.
Qed.

(** ** Failures of a PR and failures of the run *)

Lemma derive_failures_recorded_later_ones_abort_witness :
  process_prs env_derive_throws default_args [1; 2; 3] [2; 3] [] tt
  = (Ret [(JsError "inconsistent metadata", 2)], tt,
     [processing_line [1; 2; 3] 2; QueryPRInfo 2;
      error_line (JsError "inconsistent metadata");
      processing_line [1; 2; 3] 3; QueryPRInfo 3; ExecuteActions 3 false]) /\
  process_prs env_plan_throws default_args [1; 2] [1; 2] [] tt
  = (Throw (JsError "no rule applies"), tt,
     [processing_line [1; 2] 1; QueryPRInfo 1]) /\
  process_prs env_execute_throws default_args [1; 2] [1; 2] [] tt
  = (Throw (JsError "mutation failed"), tt,
     [processing_line [1; 2] 1; QueryPRInfo 1; ExecuteActions 1 false]) /\
  run env_execute_throws default_args tt
  = (1, tt,
     opening
     +++ [processing_line [1; 2] 1; QueryPRInfo 1; ExecuteActions 1 false]
     +++ [ErrorValue (JsError "mutation failed")]).
Proof.
  split; [|split; [|split]].
  - apply (proj1 (derive_failures_recorded_later_ones_abort
                    env_derive_throws default_args [1; 2; 3] 2 [3] [] tt
                    (Some 2) tt 2 eq_refl eq_refl eq_refl)
             (JsError "inconsistent metadata") tt).
    reflexivity.
  - apply (proj1 (proj2 (derive_failures_recorded_later_ones_abort
                    env_plan_throws default_args [1; 2] 1 [2] [] tt
                    (Some 1) tt 1 eq_refl eq_refl eq_refl))
             ok_state tt O (JsError "no rule applies")); reflexivity.
  - apply (proj1 (proj2 (proj2 (derive_failures_recorded_later_ones_abort
                    env_execute_throws default_args [1; 2] 1 [2] [] tt
                    (Some 1) tt 1 eq_refl eq_refl eq_refl)))
             ok_state tt O ["add label"] (JsError "mutation failed") tt);
      reflexivity.
  - apply (proj2 (proj2 (proj2 (derive_failures_recorded_later_ones_abort
                    env_execute_throws default_args [1; 2] 1 [2] [] tt
                    (Some 1) tt 1 eq_refl eq_refl eq_refl)))
             tt [] tt (JsError "mutation failed") tt); reflexivity.
Defined.

(** C3 as stated does not hold: with two open PRs and an executor that
    fails for the first, nothing is recorded, the second PR is never
    fetched, and the run ends at once with exit code 1. *)
Lemma execute_exception_ends_the_run :
  shouldRunOn (positional default_args) 2 = true /\
  run env_execute_throws default_args tt
  = (1, tt,
     [Console Log "Getting open PRs."; QueryOpenPRs;
      processing_line [1; 2] 1; QueryPRInfo 1; ExecuteActions 1 false;
      ErrorValue (JsError "mutation failed")]) /\
  ~ In (QueryPRInfo 2) (snd (run env_execute_throws default_args tt)).
Proof.
  split; [reflexivity|]. split; [reflexivity|].
  simpl. intros H. repeat (destruct H as [H|H]; [discriminate H|]). exact H.
Qed.

(** C4, as the code has it: a PR that derives to the error state has its
    message printed on the error stream and on the log, and is then
    planned and executed like any other: when planner and executor
    return, the turn returns with the failure list as it was. *)
Theorem error_state_is_planned_and_executed
    {W RawInfo PrInfo D Action Mutation : Type}
    (env : Env W RawInfo PrInfo D Action Mutation) (args : Args)
    (prs : list Z) (pr : Z) (failures : list (exn * Z))
    (w : W) (info : RawInfo) (w1 : W) (prInfo : PrInfo)
    (m : string) (w2 : W) (k : nat) (actions : list Action)
    (mutations : list Mutation) (w3 : W) :
  shouldRunOn (positional args) pr = true ->
  getPRInfo env pr w = (Ret info, w1) ->
  pullRequest env info = Some prInfo ->
  deriveStateForPR env prInfo w1 = (Ret (BotError m), w2) ->
  computeActions env (BotError m) (truthy (show_extended args)) = (k, Ret actions) ->
  executePrActions env actions prInfo (dry args) w2 = (Ret mutations, w3) ->
  process_pr env args prs pr failures w
  = (Ret failures, w3,
     prelude args prs pr
     +++ shown (truthy (show_basic args)) "Basic PR Info"
     +++ [Console Error ("  Error: " ++ m); Console Log ("  ... " ++ m)]
     +++ sunk_lines (truthy (show_extended args)) k
     +++ shown (truthy (show_actions args)) "Actions"
     +++ [ExecuteActions pr (dry args)]
     +++ shown (nullish (show_mutations args) (dry args)) "Mutations").
Proof.
  intros Hsel Hget Hpr Hd Hc He.
  rewrite (process_pr_done env args prs pr failures w info w1 prInfo
             (BotError m) w2 k actions mutations w3 Hsel Hget Hpr Hd Hc He).
  unfold executing, planning, state_lines. simpl message_of. cbv iota.
  rewrite <- !app_assoc. reflexivity.
Qed.

Lemma error_state_is_planned_and_executed_witness :
  process_pr env_ci_failed default_args [101; 102] 101 [] tt
  = (Ret [], tt,
     [processing_line [101; 102] 101; QueryPRInfo 101;
      Console Error "  Error: CI failed"; Console Log "  ... CI failed";
      ExecuteActions 101 false]).
Proof.
  apply (error_state_is_planned_and_executed env_ci_failed default_args
           [101; 102] 101 [] tt (Some 101) tt 101 "CI failed" tt O [] [] tt);
    reflexivity.
Defined.

(** C4 as stated does not hold: PR 101 derives to the error state
    "CI failed", yet no failure is recorded for it, and the run ends with
    "Done" and exit code 0. *)
Lemma error_state_is_not_recorded :
  deriveStateForPR env_ci_failed 101 tt = (Ret (BotError "CI failed"), tt) /\
  fst (fst (process_prs env_ci_failed default_args [101; 102] [101; 102] [] tt))
  = Ret [] /\
  run env_ci_failed default_args tt
  = (0, tt,
     [Console Log "Getting open PRs."; QueryOpenPRs;
      processing_line [101; 102] 101; QueryPRInfo 101;
      Console Error "  Error: CI failed"; Console Log "  ... CI failed";
      ExecuteActions 101 false;
      processing_line [101; 102] 102; QueryPRInfo 102;
      ExecuteActions 102 false;
      Console Log "Cleaning up cards"; QueryBoard; Console Log "Done"]).
Proof. repeat split. Qed.

(** ** The exit code *)

(** C8: when the clean-up runs and no fetched column is named
    'Recently Merged', the clean-up throws the configuration error right
    after the board query: no card is looked up and none is deleted.  The
    error is thrown whatever the failure list holds; the recorded failures
    are not printed, and the run ends with exit code 1 and this error. *)
Theorem missing_archive_column_is_fatal
    {W RawInfo PrInfo D Action Mutation : Type}
    (env : Env W RawInfo PrInfo D Action Mutation) (args : Args)
    (w0 : W) (prs : list Z) (cardIDs : list string) (w1 : W)
    (failures : list (exn * Z)) (w2 : W) (t : trace)
    (columns : list Column) (w3 : W) :
  dry args = false -> cleanup args = true ->
  getAllOpenPRsAndCardIDs env w0 = (Ret (prs, cardIDs), w1) ->
  process_prs env args prs prs [] w1 = (Ret failures, w2, t) ->
  getProjectBoardCards env w2 = (Ret columns, w3) ->
  (forall c, In c columns -> name c <> "Recently Merged") ->
  clean_board env cardIDs w2
  = (Throw (missing_column_error columns), w3,
     [Console Log "Cleaning up cards"; QueryBoard]) /\
  run env args w0
  = (1, w3,
     opening +++ t
     +++ [Console Log "Cleaning up cards"; QueryBoard;
          ErrorValue (missing_column_error columns)]).
Proof.
  intros Hdry Hclean Hall Hloop Hboard Hno.
  pose proof (clean_board_missing env cardIDs w2 columns w3 Hboard Hno) as Hcb.
  split; [exact Hcb|].
  rewrite (run_after_loop env args w0 prs cardIDs w1 failures w2 t Hall Hloop).
  unfold finish. rewrite Hdry, Hclean. cbn [orb negb].
  rewrite (bind_Throw _ _ w2 _ w3 _ Hcb). reflexivity.
Qed.

Lemma missing_archive_column_is_fatal_witness :
  clean_board env_no_archive [] tt
  = (Throw (JsError "Could not find the 'Recently Merged' column in Needs Review,Other"),
     tt, [Console Log "Cleaning up cards"; QueryBoard]) /\
  run env_no_archive default_args tt
  = (1, tt,
     opening
     +++ [processing_line [1; 2; 3] 1; QueryPRInfo 1; ExecuteActions 1 false;
          processing_line [1; 2; 3] 2; QueryPRInfo 2;
          error_line (JsError "inconsistent metadata");
          processing_line [1; 2; 3] 3; QueryPRInfo 3; ExecuteActions 3 false]
     +++ [Console Log "Cleaning up cards"; QueryBoard;
          ErrorValue (JsError "Could not find the 'Recently Merged' column in Needs Review,Other")]).
Proof.
  apply (missing_archive_column_is_fatal env_no_archive default_args
           tt [1; 2; 3] [] tt [(JsError "inconsistent metadata", 2)] tt
           [processing_line [1; 2; 3] 1; QueryPRInfo 1; ExecuteActions 1 false;
            processing_line [1; 2; 3] 2; QueryPRInfo 2;
            error_line (JsError "inconsistent metadata");
            processing_line [1; 2; 3] 3; QueryPRInfo 3; ExecuteActions 3 false]
           [mkColumn "Needs Review" [card_at 0] 1; mkColumn "Other" [] 0] tt);
    try reflexivity.
  intros c [<-|[<-|[]]]; simpl; discriminate.
Defined.

(** C5, as the code has it: when the loop over the PRs returns and, if the
    clean-up runs, the clean-up of the board returns as well, the exit
    code is 0 under dry-run or with the clean-up disabled, and 0 with the
    line "Done" when no failure was recorded; otherwise the recorded
    failures are all printed, one line each in the order they were
    recorded, and the run ends with exit code 1 and the error of the first
    of them. *)
Theorem exit_code_of_a_run_without_fatal_error
    {W RawInfo PrInfo D Action Mutation : Type}
    (env : Env W RawInfo PrInfo D Action Mutation) (args : Args)
    (w0 : W) (prs : list Z) (cardIDs : list string) (w1 : W)
    (failures : list (exn * Z)) (w2 : W) (t : trace) (w3 : W) (t' : trace) :
  getAllOpenPRsAndCardIDs env w0 = (Ret (prs, cardIDs), w1) ->
  process_prs env args prs prs [] w1 = (Ret failures, w2, t) ->
  (dry args || negb (cleanup args) = false ->
   clean_board env cardIDs w2 = (Ret tt, w3, t')) ->
  run env args w0
  = if dry args || negb (cleanup args) then (0, w2, opening +++ t)
    else match failures with
         | [] => (0, w3, opening +++ t +++ t' +++ [Console Log "Done"])
         | (e0, _) :: _ =>
             (1, w3,
              opening +++ t +++ t'
              +++ [failed_header] +++ failure_lines failures
              +++ [ErrorValue e0])
         end.
Proof.
  intros Hall Hloop Hboard.
  rewrite (run_after_loop env args w0 prs cardIDs w1 failures w2 t Hall Hloop).
  unfold finish. destruct (dry args || negb (cleanup args)).
  - simpl. rewrite app_nil_r. reflexivity.
  - rewrite (bind_Ret _ _ w2 tt w3 t' (Hboard eq_refl)).
    rewrite report_run.
    destruct failures as [|[e0 pr0] r].
    + reflexivity.
    + rewrite <- !app_assoc. reflexivity.
Qed.

Lemma exit_code_of_a_run_without_fatal_error_witness :
  run env_derive_throws default_args tt
  = (1, tt,
     opening
     +++ [processing_line [1; 2; 3] 1; QueryPRInfo 1; ExecuteActions 1 false;
          processing_line [1; 2; 3] 2; QueryPRInfo 2;
          error_line (JsError "inconsistent metadata");
          processing_line [1; 2; 3] 3; QueryPRInfo 3; ExecuteActions 3 false]
     +++ [Console Log "Cleaning up cards"; QueryBoard]
     +++ [failed_header]
     +++ [Console Error "  #2: Error: inconsistent metadata"]
     +++ [ErrorValue (JsError "inconsistent metadata")]) /\
  run env_derive_throws dry_args tt
  = (0, tt,
     opening
     +++ [processing_line [1; 2; 3] 1; QueryPRInfo 1; ExecuteActions 1 true;
          Display "Mutations";
          processing_line [1; 2; 3] 2; QueryPRInfo 2;
          error_line (JsError "inconsistent metadata");
          processing_line [1; 2; 3] 3; QueryPRInfo 3; ExecuteActions 3 true;
          Display "Mutations"]).
Proof.
  split.
  - apply (exit_code_of_a_run_without_fatal_error env_derive_throws default_args
             tt [1; 2; 3] [] tt [(JsError "inconsistent metadata", 2)] tt
             [processing_line [1; 2; 3] 1; QueryPRInfo 1; ExecuteActions 1 false;
              processing_line [1; 2; 3] 2; QueryPRInfo 2;
              error_line (JsError "inconsistent metadata");
              processing_line [1; 2; 3] 3; QueryPRInfo 3; ExecuteActions 3 false]
             tt [Console Log "Cleaning up cards"; QueryBoard]);
      reflexivity.
  - apply (exit_code_of_a_run_without_fatal_error env_derive_throws dry_args
             tt [1; 2; 3] [] tt [(JsError "inconsistent metadata", 2)] tt
             [processing_line [1; 2; 3] 1; QueryPRInfo 1; ExecuteActions 1 true;
              Display "Mutations";
              processing_line [1; 2; 3] 2; QueryPRInfo 2;
              error_line (JsError "inconsistent metadata");
              processing_line [1; 2; 3] 3; QueryPRInfo 3; ExecuteActions 3 true;
              Display "Mutations"]
             tt []);
      try reflexivity.
    simpl. discriminate.
Defined.

(** C5 as stated does not hold: no PR is open, so no failure is recorded,
    and the run is neither dry nor without clean-up; the board has no
    archive column, and the exit code is 1. *)
Lemma exit_code_one_without_recorded_failure :
  fst (fst (process_prs env_idle_no_archive default_args [] [] [] tt)) = Ret [] /\
  run env_idle_no_archive default_args tt
  = (1, tt,
     [Console Log "Getting open PRs."; QueryOpenPRs;
      Console Log "Cleaning up cards"; QueryBoard;
      ErrorValue (JsError "Could not find the 'Recently Merged' column in Needs Review")]).
Proof. split; reflexivity. Qed.

(** ** The archive column *)

(** C7, as the code has it: the warning about unseen cards is printed only
    while the archive column is being cut.  When its [totalCount] exceeds
    the number of fetched cards and more than 50 cards were fetched, the
    warning follows the line that announces the cut, and the deletions go
    on with the fetched cards; with 50 fetched cards or fewer nothing is
    printed and nothing is deleted. *)
Theorem unseen_cards_warning_when_cutting
    {W RawInfo PrInfo D Action Mutation : Type}
    (env : Env W RawInfo PrInfo D Action Mutation)
    (columns : list Column) (rm : Column) (w : W) :
  find (fun c => String.eqb (name c) "Recently Merged") columns = Some rm ->
  Z.of_nat (List.length (cards rm)) < totalCount rm ->
  reduce_recently_merged env columns w
  = if (50 <? List.length (cards rm))%nat
    then (let '(o, w1, t) := delete_cards env (afterFirst50 (cards rm)) w in
          (o, w1,
           cutting_line
           :: unseen_warning (totalCount rm - Z.of_nat (List.length (cards rm)))
           :: t))
    else (Ret tt, w, []).
Proof.
  intros Hfind Hlt.
  rewrite (reduce_recently_merged_found env columns rm w Hfind).
  apply Z.ltb_lt in Hlt. rewrite Hlt. reflexivity.
Qed.

Lemma unseen_cards_warning_when_cutting_witness :
  firstn 3 (snd (reduce_recently_merged env_long_archive
                   [mkColumn "Recently Merged" cards73 100] tt))
  = [cutting_line; unseen_warning 27; DeleteProjectCard "card50"].
Proof.
  rewrite (unseen_cards_warning_when_cutting env_long_archive
             [mkColumn "Recently Merged" cards73 100]
             (mkColumn "Recently Merged" cards73 100) tt);
    [reflexivity | reflexivity | simpl; lia].
Defined.

(** C7 as stated does not hold: one card of two was fetched, and the
    clean-up of the archive column prints nothing. *)
Lemma unseen_cards_without_warning :
  Z.of_nat (List.length [card_at 0]) < 2 /\
  reduce_recently_merged env_short_archive
    [mkColumn "Recently Merged" [card_at 0] 2] tt
  = (Ret tt, tt, []) /\
  run env_short_archive default_args tt
  = (0, tt,
     [Console Log "Getting open PRs."; QueryOpenPRs;
      Console Log "Cleaning up cards"; QueryBoard; Console Log "Done"]).
Proof. repeat split. Qed.

(** C1, on the code: of 73 archive cards, sorted by [updatedAt] ascending,
    the code keeps the first 50, which are the 50 oldest, and deletes the
    other 23, which are the 23 newest. *)
Theorem archive_cut_deletes_the_newest_of_73 :
  List.length cards73 = 73%nat /\
  first50 cards73 = map card_at (range 0 50) /\
  afterFirst50 cards73 = map card_at (range 50 23) /\
  forallb (fun kept => forallb (fun deleted => older kept deleted)
                               (afterFirst50 cards73))
          (first50 cards73) = true /\
  run env_archive73 default_args tt
  = (0, tt,
     opening
     +++ [Console Log "Cleaning up cards"; QueryBoard; cutting_line]
     +++ deletions (map card_at (range 50 23))
     +++ [Console Log "Done"]).
Proof. repeat split; vm_compute; reflexivity. Qed.

(** ** The other columns *)

Section OtherColumns.

Context {W RawInfo PrInfo D Action Mutation : Type}.
Variable env : Env W RawInfo PrInfo D Action Mutation.

Lemma emits_only_ret {A : Type} (P : event -> Prop) (a : A) :
  emits_only P (ret W a).
Proof. intros w. constructor. Qed.

Lemma emits_only_bind {A B : Type} (P : event -> Prop)
    (m : M W A) (f : A -> M W B) :
  emits_only P m -> (forall a, emits_only P (f a)) -> emits_only P (bind W m f).
Proof.
  intros Hm Hf w. unfold bind. specialize (Hm w).
  destruct (m w) as [[[a|e] w1] t1]; simpl in *.
  - specialize (Hf a w1). destruct (f a w1) as [[o w2] t2]. simpl in *.
    apply Forall_app. split; assumption.
  - exact Hm.
Qed.

Lemma emits_only_console (P : event -> Prop) (s : stream) (line : string) :
  P (Console s line) -> emits_only P (console W s line).
Proof. intros H w. repeat constructor. exact H. Qed.

End OtherColumns.

(** The loop over the other columns on the board of [env_review]: of the
    four cards it looks at, it deletes card [c], whose PR is closed, and
    no other. *)
Example review_column_run :
  handle_other_columns env_review ["e"] [empty_archive; review_column] tt
  = (Ret tt, tt,
     [Console Log ("Cleaning up closed PRs in " ++ quoted "Needs Maintainer Review");
      QueryCardPR "a"; should_delete_line "a" "#12";
      QueryCardPR "b"; should_delete_line "b" "???";
      QueryCardPR "c"; DeleteProjectCard "c";
      QueryCardPR "d"; should_delete_line "d" "#5"]).
Proof. reflexivity. Qed.

(** ** What a run leaves in its trace *)

Section Traces.

Context {W RawInfo PrInfo D Action Mutation : Type}.
Variable env : Env W RawInfo PrInfo D Action Mutation.
Variable args : Args.

Lemma emits_only_weaken {A : Type} (P Q : event -> Prop) (m : M W A) :
  (forall ev, P ev -> Q ev) -> emits_only P m -> emits_only Q m.
Proof.
  intros HPQ Hm w. specialize (Hm w).
  rewrite Forall_forall in *. auto.
Qed.

Lemma emits_only_throw {A : Type} (P : event -> Prop) (e : exn) :
  emits_only P (throw W e (A := A)).
Proof. intros w. constructor. Qed.

Lemma emits_only_lift {A : Type} (P : event -> Prop) (o : outcome A) :
  emits_only P (lift W o).
Proof. intros w. constructor. Qed.

Lemma emits_only_call {A : Type} (P : event -> Prop) (ev : event)
    (f : W -> outcome A * W) :
  P ev -> emits_only P (call W ev f).
Proof.
  intros H w. unfold call. destruct (f w) as [o w1]. simpl.
  repeat constructor. exact H.
Qed.

Lemma emits_only_show (P : event -> Prop) (title : string) :
  P (Display title) -> emits_only P (show W title).
Proof. intros H w. repeat constructor. exact H. Qed.

Lemma emits_only_when (P : event -> Prop) (b : bool) (m : M W unit) :
  emits_only P m -> emits_only P (when W b m).
Proof. intros H. destruct b; [exact H | apply emits_only_ret]. Qed.

Lemma emits_only_repeat_m (P : event -> Prop) (k : nat) (m : M W unit) :
  emits_only P m -> emits_only P (repeat_m W k m).
Proof.
  intros H. induction k as [|k IH]; simpl.
  - apply emits_only_ret.
  - apply emits_only_bind; [exact H | intros _; exact IH].
Qed.

(** The loop names only PRs of the list that the selection accepts, and
    hands the executor the dry-run flag of the command line. *)
Lemma process_pr_events (prs : list Z) (pr : Z) (failures : list (exn * Z)) :
  In pr prs ->
  emits_only (loop_event args prs) (process_pr env args prs pr failures).
Proof.
  intros Hin. unfold process_pr.
  destruct (shouldRunOn (positional args) pr) eqn:Hsel; simpl;
    [|apply emits_only_ret].
  apply emits_only_bind; [apply emits_only_console; exact I|]. intros _.
  apply emits_only_bind; [apply emits_only_call; simpl; auto|]. intros info.
  apply emits_only_bind;
    [apply emits_only_when, emits_only_show; exact I|]. intros _.
  destruct (pullRequest env info) as [prInfo|].
  - apply emits_only_bind.
    + intros w. unfold try_catch.
      destruct (deriveStateForPR env prInfo w) as [o w1]. constructor.
    + intros [st|e].
      * apply emits_only_bind;
          [apply emits_only_when, emits_only_show; exact I|]. intros _.
        apply emits_only_bind.
        { destruct st; [apply emits_only_console; exact I | apply emits_only_ret]. }
        intros _. apply emits_only_bind.
        { destruct (message_of st);
            [apply emits_only_console; exact I | apply emits_only_ret]. }
        intros _.
        destruct (computeActions env st (truthy (show_extended args)))
          as [sunk planned].
        apply emits_only_bind.
        { apply emits_only_when, emits_only_repeat_m, emits_only_show. exact I. }
        intros _. apply emits_only_bind; [apply emits_only_lift|]. intros actions.
        apply emits_only_bind;
          [apply emits_only_when, emits_only_show; exact I|]. intros _.
        apply emits_only_bind; [apply emits_only_call; simpl; auto|]. intros _.
        apply emits_only_bind;
          [apply emits_only_when, emits_only_show; exact I|]. intros _.
        apply emits_only_ret.
      * apply emits_only_bind; [apply emits_only_console; exact I|]. intros _.
        apply emits_only_ret.
  - apply emits_only_bind; [apply emits_only_console; exact I|]. intros _.
    apply emits_only_ret.
Qed.

Lemma process_prs_events (prs rest : list Z) :
  incl rest prs ->
  forall failures,
    emits_only (loop_event args prs) (process_prs env args prs rest failures).
Proof.
  induction rest as [|pr rest IH]; intros Hincl failures; simpl.
  - apply emits_only_ret.
  - apply emits_only_bind.
    + apply process_pr_events. apply Hincl. left. reflexivity.
    + intros failures'. apply IH. intros x Hx. apply Hincl. right. exact Hx.
Qed.

Lemma deleteObject_events (i : string) (shoulda : option string) :
  emits_only cleanup_event (deleteObject env i shoulda).
Proof.
  unfold deleteObject. destruct (truthy_string shoulda).
  - apply emits_only_console. exact I.
  - apply emits_only_call. exact I.
Qed.

Lemma delete_cards_events (cs : list Card) :
  emits_only cleanup_event (delete_cards env cs).
Proof.
  induction cs as [|c r IH]; simpl.
  - apply emits_only_ret.
  - apply emits_only_bind; [apply deleteObject_events | intros _; exact IH].
Qed.

Lemma reduce_recently_merged_events (columns : list Column) :
  emits_only cleanup_event (reduce_recently_merged env columns).
Proof.
  unfold reduce_recently_merged.
  destruct (find _ columns) as [rm|]; [|apply emits_only_throw].
  destruct (0 <? _); [|apply emits_only_ret].
  apply emits_only_bind; [apply emits_only_console; exact I|]. intros _.
  apply emits_only_bind.
  - unfold when. destruct (_ <? _);
      [apply emits_only_console; exact I | apply emits_only_ret].
  - intros _. apply delete_cards_events.
Qed.

Lemma check_ids_events (ids : list string) :
  emits_only cleanup_event (check_ids env ids).
Proof.
  induction ids as [|i r IH]; simpl.
  - apply emits_only_ret.
  - apply emits_only_bind; [|intros _; exact IH].
    unfold check_id. apply emits_only_bind; [apply emits_only_call; exact I|].
    intros info. apply deleteObject_events.
Qed.

Lemma handle_other_columns_events (cardIDs : list string) (columns : list Column) :
  emits_only cleanup_event (handle_other_columns env cardIDs columns).
Proof.
  induction columns as [|c r IH]; simpl.
  - apply emits_only_ret.
  - apply emits_only_bind; [|intros _; exact IH].
    unfold handle_column.
    destruct (String.eqb (name c) "Recently Merged"); [apply emits_only_ret|].
    destruct (stale_ids cardIDs c); [apply emits_only_ret|].
    apply emits_only_bind; [apply emits_only_console; exact I|]. intros _.
    apply check_ids_events.
Qed.

Lemma clean_board_events (cardIDs : list string) :
  emits_only cleanup_event (clean_board env cardIDs).
Proof.
  unfold clean_board.
  apply emits_only_bind; [apply emits_only_console; exact I|]. intros _.
  apply emits_only_bind; [apply emits_only_call; exact I|]. intros columns.
  apply emits_only_bind; [apply reduce_recently_merged_events|]. intros _.
  apply handle_other_columns_events.
Qed.

Lemma report_events (failures : list (exn * Z)) :
  emits_only cleanup_event (report (W := W) failures).
Proof.
  intros w. rewrite report_run. destruct failures as [|[e0 pr0] r]; simpl.
  - repeat constructor.
  - constructor; [exact I|]. constructor; [exact I|].
    unfold failure_lines. apply Forall_forall. intros ev Hev.
    apply in_map_iff in Hev as (f & <- & _). exact I.
Qed.

Lemma finish_events (cardIDs : list string) (failures : list (exn * Z)) :
  emits_only cleanup_event (finish env args cardIDs failures).
Proof.
  unfold finish. destruct (dry args || negb (cleanup args)).
  - apply emits_only_ret.
  - apply emits_only_bind; [apply clean_board_events|]. intros _.
    apply report_events.
Qed.

(** The trace of [start], once the open PRs are known: the two opening
    events, then events of the loop, then events of the clean-up. *)
Lemma start_trace (w0 : W) (prs : list Z) (cardIDs : list string) (w1 : W) :
  getAllOpenPRsAndCardIDs env w0 = (Ret (prs, cardIDs), w1) ->
  exists tl tc,
    snd (start env args w0) = opening +++ tl +++ tc /\
    Forall (loop_event args prs) tl /\
    Forall cleanup_event tc /\
    (dry args || negb (cleanup args) = true -> tc = []).
Proof.
  intros Hall. unfold start.
  rewrite (bind_Ret _ _ w0 tt w0 [Console Log "Getting open PRs."]) by reflexivity.
  rewrite (bind_Ret _ _ w0 (prs, cardIDs) w1 [QueryOpenPRs])
    by (unfold call; rewrite Hall; reflexivity).
  pose proof (process_prs_events prs prs (incl_refl prs) [] w1) as Hloop.
  unfold bind at 1.
  destruct (process_prs env args prs prs [] w1) as [[[failures|e] w2] tl];
    simpl in Hloop.
  - pose proof (finish_events cardIDs failures w2) as Hfin.
    assert (dry args || negb (cleanup args) = true ->
            snd (finish env args cardIDs failures w2) = []) as Hdry.
    { intros Hd. unfold finish. rewrite Hd. reflexivity. }
    destruct (finish env args cardIDs failures w2) as [[o w3] tc].
    simpl in *. exists tl, tc. repeat split; assumption.
  - exists tl, []. simpl. rewrite app_nil_r. repeat split; auto.
Qed.

End Traces.

(** ** Properties of whole runs *)

Lemma run_trace
    {W RawInfo PrInfo D Action Mutation : Type}
    (env : Env W RawInfo PrInfo D Action Mutation) (args : Args) (w : W) :
  run env args w
  = match start env args w with
    | (Ret _, w1, t) => (0, w1, t)
    | (Throw e, w1, t) => (1, w1, t +++ [ErrorValue e])
    end.
Proof. reflexivity. Qed.

Lemma start_events
    {W RawInfo PrInfo D Action Mutation : Type}
    (env : Env W RawInfo PrInfo D Action Mutation) (args : Args) :
  emits_only start_event (start env args).
Proof.
  unfold start.
  apply emits_only_bind; [apply emits_only_console; exact I|]. intros _.
  apply emits_only_bind; [apply emits_only_call; exact I|]. intros [prs cardIDs].
  apply emits_only_bind.
  - apply (emits_only_weaken (loop_event args prs)).
    + intros [] H; simpl in *; auto.
    + apply process_prs_events. apply incl_refl.
  - intros failures. apply (emits_only_weaken cleanup_event).
    + intros [] H; simpl in *; auto.
    + apply finish_events.
Qed.

(** X1: under dry-run, and when the clean-up is switched off, a run never
    asks for the board, never looks a card up and never deletes a card,
    whatever the collaborators answer. *)
Theorem dry_run_leaves_the_board_alone
    {W RawInfo PrInfo D Action Mutation : Type}
    (env : Env W RawInfo PrInfo D Action Mutation) (args : Args) (w : W) :
  dry args || negb (cleanup args) = true ->
  Forall (fun ev => is_board_event ev = false) (snd (run env args w)).
Proof.
  intros Hdry. rewrite run_trace.
  assert (Forall (fun ev => is_board_event ev = false) (snd (start env args w)))
    as Hstart.
  { destruct (getAllOpenPRsAndCardIDs env w) as [[[prs cardIDs]|e] w1] eqn:Hall.
    - destruct (start_trace env args w prs cardIDs w1 Hall)
        as (tl & tc & -> & Hl & _ & Hc).
      rewrite (Hc Hdry), app_nil_r.
      apply Forall_app. split; [repeat constructor|].
      revert Hl. apply Forall_impl. intros [] H; simpl in *; tauto.
    - unfold start.
      rewrite (bind_Ret _ _ w tt w [Console Log "Getting open PRs."]) by reflexivity.
      rewrite (bind_Throw _ _ w e w1 [QueryOpenPRs])
        by (unfold call; rewrite Hall; reflexivity).
      repeat constructor. }
  destruct (start env args w) as [[[u|e] w1] t]; simpl in *; [exact Hstart|].
  apply Forall_app. split; [exact Hstart | repeat constructor].
Qed.

Lemma dry_run_leaves_the_board_alone_witness :
  Forall (fun ev => is_board_event ev = false)
         (snd (run env_review dry_args tt)) /\
  ~ Forall (fun ev => is_board_event ev = false)
           (snd (run env_review default_args tt)).
Proof.
  split.
  - apply (dry_run_leaves_the_board_alone env_review dry_args tt). reflexivity.
  - intros H. rewrite Forall_forall in H.
    specialize (H QueryBoard). simpl in H.
    assert (true = false) as Habs by (apply H; auto 10).
    discriminate Habs.
Defined.

(** X2: whatever the collaborators answer, every PR that a run fetches or
    hands to the executor is one of the open PRs and is accepted by the
    selection, and the executor is always given the dry-run flag of the
    command line. *)
Theorem only_selected_open_prs_are_processed
    {W RawInfo PrInfo D Action Mutation : Type}
    (env : Env W RawInfo PrInfo D Action Mutation) (args : Args)
    (w0 : W) (prs : list Z) (cardIDs : list string) (w1 : W) :
  getAllOpenPRsAndCardIDs env w0 = (Ret (prs, cardIDs), w1) ->
  Forall (names_selected_prs args prs) (snd (run env args w0)).
Proof.
  intros Hall. rewrite run_trace.
  destruct (start_trace env args w0 prs cardIDs w1 Hall)
    as (tl & tc & Ht & Hl & Hc & _).
  assert (Forall (names_selected_prs args prs) (snd (start env args w0))) as Hs.
  { rewrite Ht. apply Forall_app. split; [repeat constructor|].
    apply Forall_app. split.
    - revert Hl. apply Forall_impl. intros [] H; simpl in *; tauto.
    - revert Hc. apply Forall_impl. intros [] H; simpl in *; tauto. }
  destruct (start env args w0) as [[[u|e] w2] t]; simpl in *; [exact Hs|].
  apply Forall_app. split; [exact Hs | repeat constructor].
Qed.

Lemma only_selected_open_prs_are_processed_witness :
  Forall (names_selected_prs only_5 [1; 5; 6])
         (snd (run (pure_env [1; 5; 6] [] (fun _ => true) (fun _ => Ret ok_state)
                             (fun _ => Ret []) (fun _ _ => Ret [])
                             [empty_archive] (fun _ => None))
                   only_5 tt)) /\
  snd (run (pure_env [1; 5; 6] [] (fun _ => true) (fun _ => Ret ok_state)
                     (fun _ => Ret []) (fun _ _ => Ret [])
                     [empty_archive] (fun _ => None))
           only_5 tt)
  = opening
    +++ [processing_line [1; 5; 6] 5; QueryPRInfo 5; ExecuteActions 5 false]
    +++ [Console Log "Cleaning up cards"; QueryBoard; Console Log "Done"].
Proof.
  split.
  - apply (only_selected_open_prs_are_processed _ only_5 tt [1; 5; 6] [] tt).
    reflexivity.
  - reflexivity.
Defined.

(** X3: the exit code is 0 exactly when [start] returns and 1 exactly when
    it throws; in the second case the thrown value is printed once, as the
    last event of the run, and in neither case is an error value printed
    anywhere before the end. *)
Theorem error_value_is_printed_last
    {W RawInfo PrInfo D Action Mutation : Type}
    (env : Env W RawInfo PrInfo D Action Mutation) (args : Args) (w : W) :
  (exists w1 t,
     run env args w = (0, w1, t) /\
     fst (fst (start env args w)) = Ret tt /\
     Forall start_event t) \/
  (exists e w1 t,
     run env args w = (1, w1, t +++ [ErrorValue e]) /\
     fst (fst (start env args w)) = Throw e /\
     Forall start_event t).
Proof.
  rewrite run_trace. pose proof (start_events env args w) as H.
  destruct (start env args w) as [[[[]|e] w1] t]; simpl in H.
  - left. exists w1, t. auto.
  - right. exists e, w1, t. auto.
Qed.

(** ** The failure list *)

Section Failures.

Context {W RawInfo PrInfo D Action Mutation : Type}.
Variable env : Env W RawInfo PrInfo D Action Mutation.
Variable args : Args.

(** One turn of the loop either leaves the failure list as it is or adds
    one entry for its PR at the end. *)
Lemma process_pr_failures prs pr failures w failures' w' t :
  process_pr env args prs pr failures w = (Ret failures', w', t) ->
  failures' = failures \/
  (shouldRunOn (positional args) pr = true /\
   exists e, failures' = (failures ++ [(e, pr)])%list).
Proof.
  destruct (shouldRunOn (positional args) pr) eqn:Hsel.
  2: { rewrite (process_pr_not_selected env args prs pr failures w Hsel).
       intros H. inversion H. auto. }
  destruct (getPRInfo env pr w) as [[info|e] w1] eqn:Hget.
  2: { rewrite (process_pr_fetch_throws env args prs pr failures w e w1 Hsel Hget).
       discriminate. }
  destruct (pullRequest env info) as [prInfo|] eqn:Hpr.
  2: { rewrite (process_pr_missing env args prs pr failures w info w1 Hsel Hget Hpr).
       intros H. inversion H. auto. }
  destruct (deriveStateForPR env prInfo w1) as [[st|e] w2] eqn:Hd.
  2: { rewrite (process_pr_derive_throws env args prs pr failures w info w1
                  prInfo e w2 Hsel Hget Hpr Hd).
       intros H. inversion H. right. split; [reflexivity|]. exists e. reflexivity. }
  destruct (computeActions env st (truthy (show_extended args)))
    as [k [actions|e]] eqn:Hc.
  2: { rewrite (process_pr_plan_throws env args prs pr failures w info w1
                  prInfo st w2 k e Hsel Hget Hpr Hd Hc).
       discriminate. }
  destruct (executePrActions env actions prInfo (dry args) w2)
    as [[mutations|e] w3] eqn:He.
  - rewrite (process_pr_done env args prs pr failures w info w1 prInfo st w2 k
               actions mutations w3 Hsel Hget Hpr Hd Hc He).
    intros H. inversion H. auto.
  - rewrite (process_pr_execute_throws env args prs pr failures w info w1
               prInfo st w2 k actions e w3 Hsel Hget Hpr Hd Hc He).
    discriminate.
Qed.

Lemma process_prs_cons_inv prs pr rest failures w failures' w' t :
  process_prs env args prs (pr :: rest) failures w = (Ret failures', w', t) ->
  exists failures1 w1 t1 t2,
    process_pr env args prs pr failures w = (Ret failures1, w1, t1) /\
    process_prs env args prs rest failures1 w1 = (Ret failures', w', t2) /\
    t = t1 +++ t2.
Proof.
  simpl. unfold bind.
  destruct (process_pr env args prs pr failures w) as [[[failures1|e] w1] t1];
    [|discriminate].
  destruct (process_prs env args prs rest failures1 w1) as [[o w2] t2] eqn:Hrest.
  intros H. inversion H; subst. exists failures1, w1, t1, t2. auto.
Qed.

(** The loop over a list of PRs is the loop over a first part of it and
    then, from where that one ends, the loop over the rest. *)
Lemma process_prs_app prs l1 l2 failures w :
  process_prs env args prs (l1 ++ l2)%list failures w
  = match process_prs env args prs l1 failures w with
    | (Ret failures1, w1, t1) =>
        let '(o, w2, t2) := process_prs env args prs l2 failures1 w1 in
        (o, w2, t1 +++ t2)
    | (Throw e, w1, t1) => (Throw e, w1, t1)
    end.
Proof.
  revert failures w. induction l1 as [|pr l1 IH]; intros failures w.
  - simpl. destruct (process_prs env args prs l2 failures w) as [[o w2] t2].
    reflexivity.
  - simpl. unfold bind.
    destruct (process_pr env args prs pr failures w) as [[[failures1|e] w1] t1];
      [|reflexivity].
    rewrite IH.
    destruct (process_prs env args prs l1 failures1 w1) as [[[failures2|e] w2] t2].
    + destruct (process_prs env args prs l2 failures2 w2) as [[o w3] t3].
      rewrite app_assoc. reflexivity.
    + reflexivity.
Qed.

Lemma process_prs_none_selected prs rest failures w :
  (forall pr, In pr rest -> shouldRunOn (positional args) pr = false) ->
  process_prs env args prs rest failures w = (Ret failures, w, []).
Proof.
  induction rest as [|pr rest IH]; intros H; [reflexivity|].
  simpl. 
  rewrite (bind_Ret _ _ w failures w [])
    by (apply process_pr_not_selected; apply H; left; reflexivity).
  rewrite IH by (intros q Hq; apply H; right; exact Hq).
  reflexivity.
Qed.

End Failures.

(** X4: a loop that returns has only added to the failure list: the
    entries it started with are still there, in front, and the PR numbers
    of the new entries are PRs of the list that the selection accepts, in
    the order of the list and each at most as often as it is listed. *)
Theorem failures_grow_in_order
    {W RawInfo PrInfo D Action Mutation : Type}
    (env : Env W RawInfo PrInfo D Action Mutation) (args : Args)
    (prs rest : list Z) (failures : list (exn * Z)) (w : W)
    (failures' : list (exn * Z)) (w' : W) (t : trace) :
  process_prs env args prs rest failures w = (Ret failures', w', t) ->
  exists added,
    failures' = (failures ++ added)%list /\
    subseq (map snd added) (filter (shouldRunOn (positional args)) rest).
Proof.
  revert failures w t. induction rest as [|pr rest IH]; intros failures w t H.
  - simpl in H. inversion H; subst. exists []. rewrite app_nil_r.
    split; [reflexivity | constructor].
  - apply process_prs_cons_inv in H
      as (failures1 & w1 & t1 & t2 & Hstep & Hrest & _).
    destruct (IH _ _ _ Hrest) as (added & -> & Hsub).
    apply process_pr_failures in Hstep as [->|(Hsel & e & ->)].
    + exists added. split; [reflexivity|].
      simpl. destruct (shouldRunOn (positional args) pr);
        [apply subseq_skip|]; exact Hsub.
    + exists ((e, pr) :: added). split.
      * rewrite <- app_assoc. reflexivity.
      * simpl. rewrite Hsel. apply subseq_take. exact Hsub.
Qed.

Lemma failures_grow_in_order_witness :
  exists added,
    [(JsError "inconsistent metadata", 2)] = ([] ++ added)%list /\
    subseq (map snd added)
           (filter (shouldRunOn (positional default_args)) [1; 2; 3]).
Proof.
  apply (failures_grow_in_order env_derive_throws default_args [1; 2; 3] [1; 2; 3]
           [] tt [(JsError "inconsistent metadata", 2)] tt
           [processing_line [1; 2; 3] 1; QueryPRInfo 1; ExecuteActions 1 false;
            processing_line [1; 2; 3] 2; QueryPRInfo 2;
            error_line (JsError "inconsistent metadata");
            processing_line [1; 2; 3] 3; QueryPRInfo 3; ExecuteActions 3 false]).
  reflexivity.
Defined.

(** X5: when the selection accepts none of the open PRs, no PR is fetched
    and nothing is printed for any of them, yet the clean-up of the board
    runs as after any other loop: the run is the two opening events and
    then the closing part of [start] with an empty failure list. *)
Theorem clean_up_runs_without_selected_prs
    {W RawInfo PrInfo D Action Mutation : Type}
    (env : Env W RawInfo PrInfo D Action Mutation) (args : Args)
    (w0 : W) (prs : list Z) (cardIDs : list string) (w1 : W) :
  getAllOpenPRsAndCardIDs env w0 = (Ret (prs, cardIDs), w1) ->
  (forall pr, In pr prs -> shouldRunOn (positional args) pr = false) ->
  run env args w0
  = match finish env args cardIDs [] w1 with
    | (Ret _, w2, t) => (0, w2, opening +++ t)
    | (Throw e, w2, t) => (1, w2, opening +++ t +++ [ErrorValue e])
    end.
Proof.
  intros Hall Hnone.
  rewrite (run_after_loop env args w0 prs cardIDs w1 [] w1 [] Hall
             (process_prs_none_selected env args prs prs [] w1 Hnone)).
  reflexivity.
Qed.

Lemma clean_up_runs_without_selected_prs_witness :
  run (pure_env [1; 6] ["e"] (fun _ => true) (fun _ => Ret ok_state)
                (fun _ => Ret []) (fun _ _ => Ret [])
                [empty_archive; review_column] review_lookup)
      only_5 tt
  = (0, tt,
     opening
     +++ [Console Log "Cleaning up cards"; QueryBoard;
          Console Log ("Cleaning up closed PRs in " ++ quoted "Needs Maintainer Review");
          QueryCardPR "a"; should_delete_line "a" "#12";
          QueryCardPR "b"; should_delete_line "b" "???";
          QueryCardPR "c"; DeleteProjectCard "c";
          QueryCardPR "d"; should_delete_line "d" "#5";
          Console Log "Done"]).
Proof.
  rewrite (clean_up_runs_without_selected_prs _ only_5 tt [1; 6] ["e"] tt).
  - reflexivity.
  - reflexivity.
  - intros pr [<-|[<-|[]]]; reflexivity.
Defined.

(** X6: the query for a selected PR is not inside any [try]: when it
    throws, the run ends there with exit code 1 and that error.  The PRs
    behind it are not fetched, the board is not cleaned, and the failures
    recorded so far are not printed. *)
Theorem pr_query_failure_ends_the_run
    {W RawInfo PrInfo D Action Mutation : Type}
    (env : Env W RawInfo PrInfo D Action Mutation) (args : Args)
    (w0 : W) (before : list Z) (pr : Z) (behind : list Z)
    (cardIDs : list string) (w1 : W)
    (failures : list (exn * Z)) (w2 : W) (t : trace) (e : exn) (w3 : W) :
  getAllOpenPRsAndCardIDs env w0
  = (Ret ((before ++ pr :: behind)%list, cardIDs), w1) ->
  process_prs env args (before ++ pr :: behind)%list before [] w1
  = (Ret failures, w2, t) ->
  shouldRunOn (positional args) pr = true ->
  getPRInfo env pr w2 = (Throw e, w3) ->
  run env args w0
  = (1, w3,
     opening +++ t
     +++ [processing_line (before ++ pr :: behind)%list pr; QueryPRInfo pr;
          ErrorValue e]).
Proof.
  intros Hall Hbefore Hsel Hget.
  rewrite (run_loop_throws env args w0 (before ++ pr :: behind)%list cardIDs w1
             e w3 (t +++ [processing_line (before ++ pr :: behind)%list pr;
                          QueryPRInfo pr]) Hall).
  - rewrite <- !app_assoc. reflexivity.
  - rewrite process_prs_app, Hbefore.
    rewrite (process_prs_abort env args _ pr behind failures w2 e w3
               [processing_line (before ++ pr :: behind)%list pr; QueryPRInfo pr]).
    + reflexivity.
    + apply process_pr_fetch_throws; assumption.
Qed.

Lemma pr_query_failure_ends_the_run_witness :
  run env_fetch_throws default_args O
  = (1, 4%nat,
     opening
     +++ [processing_line [1; 2; 3] 1; QueryPRInfo 1;
          error_line (JsError "inconsistent metadata")]
     +++ [processing_line [1; 2; 3] 2; QueryPRInfo 2;
          ErrorValue (JsError "rate limited")]).
Proof.
  apply (pr_query_failure_ends_the_run env_fetch_throws default_args
           O [1] 2 [3] [] 1%nat [(JsError "inconsistent metadata", 1)] 3%nat
           [processing_line [1; 2; 3] 1; QueryPRInfo 1;
            error_line (JsError "inconsistent metadata")]
           (JsError "rate limited") 4%nat); reflexivity.
Defined.

(** X7: a run that is neither dry nor without clean-up and that ends with
    exit code 0 has recorded no failure in its loop and has "Done" as its
    last line. *)
Theorem done_is_the_last_line_of_a_clean_run
    {W RawInfo PrInfo D Action Mutation : Type}
    (env : Env W RawInfo PrInfo D Action Mutation) (args : Args)
    (w0 w' : W) (t : trace) :
  dry args = false -> cleanup args = true ->
  run env args w0 = (0, w', t) ->
  (exists t', t = t' +++ [Console Log "Done"]) /\
  (exists prs cardIDs w1 w2 tl,
     getAllOpenPRsAndCardIDs env w0 = (Ret (prs, cardIDs), w1) /\
     process_prs env args prs prs [] w1 = (Ret [], w2, tl)).
Proof.
  intros Hdry Hclean Hrun.
  destruct (getAllOpenPRsAndCardIDs env w0) as [[[prs cardIDs]|e] w1] eqn:Hall.
  2: { unfold run, start in Hrun.
       rewrite (bind_Ret _ _ w0 tt w0 [Console Log "Getting open PRs."]) in Hrun
         by reflexivity.
       rewrite (bind_Throw _ _ w0 e w1 [QueryOpenPRs]) in Hrun
         by (unfold call; rewrite Hall; reflexivity).
       discriminate Hrun. }
  destruct (process_prs env args prs prs [] w1) as [[[failures|e] w2] tl] eqn:Hloop.
  2: { rewrite (run_loop_throws env args w0 prs cardIDs w1 e w2 tl Hall Hloop) in Hrun.
       discriminate Hrun. }
  rewrite (run_after_loop env args w0 prs cardIDs w1 failures w2 tl Hall Hloop) in Hrun.
  unfold finish in Hrun. rewrite Hdry, Hclean in Hrun. cbn [orb negb] in Hrun.
  unfold bind in Hrun.
  destruct (clean_board env cardIDs w2) as [[[[]|e] w3] tc]; [|discriminate Hrun].
  rewrite report_run in Hrun.
  destruct failures as [|[e0 pr0] r]; [|discriminate Hrun].
  inversion Hrun; subst. split.
  - exists (opening +++ tl +++ tc). rewrite <- !app_assoc. reflexivity.
  - exists prs, cardIDs, w1, w2, tl. auto.
Qed.

Lemma done_is_the_last_line_of_a_clean_run_witness :
  (exists t',
     opening
     +++ [processing_line [101; 102] 101; QueryPRInfo 101;
          Console Error "  Error: CI failed"; Console Log "  ... CI failed";
          ExecuteActions 101 false;
          processing_line [101; 102] 102; QueryPRInfo 102;
          ExecuteActions 102 false;
          Console Log "Cleaning up cards"; QueryBoard; Console Log "Done"]
     = t' +++ [Console Log "Done"]) /\
  (exists prs cardIDs w1 w2 tl,
     getAllOpenPRsAndCardIDs env_ci_failed tt = (Ret (prs, cardIDs), w1) /\
     process_prs env_ci_failed default_args prs prs [] w1 = (Ret [], w2, tl)).
Proof.
  apply (done_is_the_last_line_of_a_clean_run env_ci_failed default_args tt tt);
    reflexivity.
Defined.

(** ** Deletions and card queries *)

Lemma deleted_ids_app (t1 t2 : trace) :
  deleted_ids (t1 +++ t2) = (deleted_ids t1 ++ deleted_ids t2)%list.
Proof. apply flat_map_app. Qed.

Lemma looked_up_ids_app (t1 t2 : trace) :
  looked_up_ids (t1 +++ t2) = (looked_up_ids t1 ++ looked_up_ids t2)%list.
Proof. apply flat_map_app. Qed.

Lemma subseq_refl {A : Type} (l : list A) : subseq l l.
Proof. induction l; constructor; assumption. Qed.

Lemma subseq_app {A : Type} (l1 l2 l3 l4 : list A) :
  subseq l1 l2 -> subseq l3 l4 -> subseq (l1 ++ l3)%list (l2 ++ l4)%list.
Proof.
  induction 1; simpl; intros H34.
  - exact H34.
  - apply subseq_skip. auto.
  - apply subseq_take. auto.
Qed.

Section Cards.

Context {W RawInfo PrInfo D Action Mutation : Type}.
Variable env : Env W RawInfo PrInfo D Action Mutation.


Lemma check_ids_app (l1 l2 : list string) (w : W) :
  check_ids env (l1 ++ l2)%list w
  = match check_ids env l1 w with
    | (Ret _, w1, t1) =>
        let '(o, w2, t2) := check_ids env l2 w1 in (o, w2, t1 +++ t2)
    | (Throw e, w1, t1) => (Throw e, w1, t1)
    end.
Proof.
  revert w. induction l1 as [|i l1 IH]; intros w.
  - simpl. destruct (check_ids env l2 w) as [[o w2] t2]. reflexivity.
  - simpl. unfold bind.
    destruct (check_id env i w) as [[[u|e] w1] t1]; [|reflexivity].
    rewrite IH.
    destruct (check_ids env l1 w1) as [[[u'|e] w2] t2].
    + destruct (check_ids env l2 w2) as [[o w3] t3].
      rewrite app_assoc. reflexivity.
    + reflexivity.
Qed.

(** When no deletion fails, all the cards are deleted, in order. *)
Lemma delete_cards_succeed (cs : list Card) (w : W) :
  (forall i w, fst (mutateDeleteProjectCard env i w) = Ret tt) ->
  exists w', delete_cards env cs w = (Ret tt, w', deletions cs).
Proof.
  intros Hok. revert w. induction cs as [|c r IH]; intros w.
  - exists w. reflexivity.
  - simpl. unfold bind. rewrite deleteObject_unconditional.
    specialize (Hok (id c) w).
    destruct (mutateDeleteProjectCard env (id c) w) as [o w1]. simpl in Hok.
    subst o. destruct (IH w1) as (w' & ->). exists w'. reflexivity.
Qed.

(** The trace of one look at a card: the query, and behind it at most the
    deletion of that card. *)
Lemma check_id_trace (i : string) (w : W) :
  looked_up_ids (snd (check_id env i w)) = [i] /\
  (deleted_ids (snd (check_id env i w)) = []
   \/ deleted_ids (snd (check_id env i w)) = [i]).
Proof.
  rewrite check_id_run.
  destruct (runQueryToGetPRForCardId env i w) as [[info|e] w1]; simpl; auto.
  destruct (confirmed_closed info); simpl; auto.
  destruct (mutateDeleteProjectCard env i w1) as [o w2]. simpl. auto.
Qed.

Lemma check_ids_trace (ids : list string) (w : W) :
  subseq (deleted_ids (snd (check_ids env ids w)))
         (looked_up_ids (snd (check_ids env ids w))) /\
  match fst (fst (check_ids env ids w)) with
  | Ret _ => looked_up_ids (snd (check_ids env ids w)) = ids
  | Throw _ =>
      exists rest, (looked_up_ids (snd (check_ids env ids w)) ++ rest)%list = ids
  end.
Proof.
  revert w. induction ids as [|i r IH]; intros w.
  - simpl. split; [constructor | reflexivity].
  - simpl. unfold bind.
    destruct (check_id_trace i w) as [Hl Hd].
    destruct (check_id env i w) as [[[u|e] w1] t1]; simpl in *.
    + destruct (IH w1) as [Hsub Hlook].
      destruct (check_ids env r w1) as [[o w2] t2]. simpl in *.
      rewrite deleted_ids_app, looked_up_ids_app, Hl. split.
      * destruct Hd as [->| ->]; simpl;
          [apply subseq_skip | apply subseq_take]; exact Hsub.
      * destruct o as [u'|e].
        -- simpl. congruence.
        -- destruct Hlook as (rest & <-). exists rest. reflexivity.
    + rewrite Hl. split.
      * destruct Hd as [->| ->];
          [apply subseq_skip | apply subseq_take]; apply subseq_nil.
      * exists r. reflexivity.
Qed.

Lemma handle_column_trace (cardIDs : list string) (column : Column) (w : W) :
  subseq (deleted_ids (snd (handle_column env cardIDs column w)))
         (looked_up_ids (snd (handle_column env cardIDs column w))) /\
  match fst (fst (handle_column env cardIDs column w)) with
  | Ret _ =>
      looked_up_ids (snd (handle_column env cardIDs column w))
      = stale_cards cardIDs [column]
  | Throw _ =>
      exists rest,
        (looked_up_ids (snd (handle_column env cardIDs column w)) ++ rest)%list
        = stale_cards cardIDs [column]
  end.
Proof.
  unfold handle_column, stale_cards, other_columns. simpl.
  destruct (String.eqb (name column) "Recently Merged"); simpl.
  - split; [constructor | reflexivity].
  - rewrite app_nil_r.
    destruct (stale_ids cardIDs column) as [|i r] eqn:E.
    + simpl. split; [constructor | reflexivity].
    + rewrite (bind_Ret _ _ w tt w
                 [Console Log ("Cleaning up closed PRs in " ++ quoted (name column))])
        by reflexivity.
      pose proof (check_ids_trace (i :: r) w) as H.
      destruct (check_ids env (i :: r) w) as [[o w1] t]. exact H.
Qed.

Lemma stale_cards_cons (cardIDs : list string) (c : Column) (r : list Column) :
  stale_cards cardIDs (c :: r)
  = (stale_cards cardIDs [c] ++ stale_cards cardIDs r)%list.
Proof.
  unfold stale_cards, other_columns. simpl.
  destruct (negb (String.eqb (name c) "Recently Merged")); simpl.
  - rewrite app_nil_r. reflexivity.
  - reflexivity.
Qed.

Lemma handle_other_columns_trace (cardIDs : list string) (columns : list Column)
    (w : W) :
  subseq (deleted_ids (snd (handle_other_columns env cardIDs columns w)))
         (looked_up_ids (snd (handle_other_columns env cardIDs columns w))) /\
  match fst (fst (handle_other_columns env cardIDs columns w)) with
  | Ret _ =>
      looked_up_ids (snd (handle_other_columns env cardIDs columns w))
      = stale_cards cardIDs columns
  | Throw _ =>
      exists rest,
        (looked_up_ids (snd (handle_other_columns env cardIDs columns w)) ++ rest)%list
        = stale_cards cardIDs columns
  end.
Proof.
  revert w. induction columns as [|c r IH]; intros w.
  - simpl. split; [constructor | reflexivity].
  - rewrite stale_cards_cons. simpl. unfold bind.
    destruct (handle_column_trace cardIDs c w) as [Hsub Hlook].
    destruct (handle_column env cardIDs c w) as [[[u|e] w1] t1]; simpl in *.
    + destruct (IH w1) as [Hsub' Hlook'].
      destruct (handle_other_columns env cardIDs r w1) as [[o w2] t2]. simpl in *.
      rewrite deleted_ids_app, looked_up_ids_app. split.
      * apply subseq_app; assumption.
      * destruct o as [u'|e].
        -- congruence.
        -- destruct Hlook' as (rest & <-). exists rest.
           rewrite <- app_assoc, Hlook. reflexivity.
    + split; [exact Hsub|].
      destruct Hlook as (rest & <-).
      exists (rest ++ stale_cards cardIDs r)%list. rewrite app_assoc. reflexivity.
Qed.

End Cards.



(** X9: when no deletion fails, the archive step deletes the cards behind
    the first 50 of the ascending order, each once and in that order, that
    is as many as were fetched beyond 50 (none when 50 or fewer were
    fetched), and it looks no card up. *)
Theorem archive_cut_deletes_all_but_50
    {W RawInfo PrInfo D Action Mutation : Type}
    (env : Env W RawInfo PrInfo D Action Mutation)
    (columns : list Column) (rm : Column) (w : W) :
  (forall i w, fst (mutateDeleteProjectCard env i w) = Ret tt) ->
  find (fun c => String.eqb (name c) "Recently Merged") columns = Some rm ->
  exists w' t,
    reduce_recently_merged env columns w = (Ret tt, w', t) /\
    deleted_ids t = map id (afterFirst50 (cards rm)) /\
    List.length (deleted_ids t) = (List.length (cards rm) - 50)%nat /\
    looked_up_ids t = [].
Proof.
  intros Hok Hfind.
  rewrite (reduce_recently_merged_found env columns rm w Hfind).
  assert (forall cs, deleted_ids (deletions cs) = map id cs) as Hdel.
  { induction cs as [|c r IH]; simpl; [reflexivity | rewrite IH; reflexivity]. }
  assert (forall cs, looked_up_ids (deletions cs) = []) as Hlook.
  { induction cs as [|c r IH]; simpl; [reflexivity | exact IH]. }
  destruct (50 <? List.length (cards rm))%nat eqn:Hlen.
  - destruct (delete_cards_succeed env (afterFirst50 (cards rm)) w Hok)
      as (w' & ->).
    eexists w', _. split; [reflexivity|].
    assert (deleted_ids
              (cutting_line
               :: (if Z.of_nat (List.length (cards rm)) <? totalCount rm
                   then [unseen_warning
                           (totalCount rm - Z.of_nat (List.length (cards rm)))]
                   else [])
               +++ deletions (afterFirst50 (cards rm)))
            = map id (afterFirst50 (cards rm))) as Hd.
    { destruct (_ <? _); simpl; apply Hdel. }
    split; [exact Hd|]. split.
    + rewrite Hd, length_map. apply afterFirst50_length.
    + destruct (_ <? _); simpl; apply Hlook.
  - exists w, []. apply Nat.ltb_ge in Hlen.
    assert (afterFirst50 (cards rm) = []) as Hnil.
    { apply length_zero_iff_nil. rewrite afterFirst50_length. lia. }
    rewrite Hnil. simpl. repeat split. lia.
Qed.

Lemma archive_cut_deletes_all_but_50_witness :
  exists w' t,
    reduce_recently_merged env_archive73 [archive73] tt = (Ret tt, w', t) /\
    deleted_ids t = map id (afterFirst50 (cards archive73)) /\
    List.length (deleted_ids t) = (List.length (cards archive73) - 50)%nat /\
    looked_up_ids t = [].
Proof.
  apply (archive_cut_deletes_all_but_50 env_archive73 [archive73] archive73 tt);
    reflexivity.
Defined.

Lemma stale_cards_In (cardIDs : list string) (columns : list Column) (i : string) :
  In i (stale_cards cardIDs columns) ->
  ~ In i cardIDs /\
  exists column c,
    In column columns /\ name column <> "Recently Merged" /\
    In c (cards column) /\ id c = i.
Proof.
  unfold stale_cards, other_columns, stale_ids. intros H.
  apply in_flat_map in H as (column & Hcol & Hi).
  apply filter_In in Hcol as [Hcol Hname].
  apply filter_In in Hi as [Hi Hstale].
  apply in_map_iff in Hi as (c & Hc & Hin). split.
  - intros Habs. apply negb_true_iff in Hstale.
    assert (existsb (String.eqb i) cardIDs = true) as Ht.
    { apply existsb_exists. exists i. split; [exact Habs | apply String.eqb_refl]. }
    congruence.
  - exists column, c. repeat split; auto.
    apply negb_true_iff in Hname. apply String.eqb_neq. exact Hname.
Qed.

Section Steady.

Context {W RawInfo PrInfo D Action Mutation : Type}.
Variable env : Env W RawInfo PrInfo D Action Mutation.
Variable lookup : string -> option CardPR.
Hypothesis Hsteady : steady env lookup.

Lemma check_ids_steady (ids : list string) (w : W) :
  exists w' t,
    check_ids env ids w = (Ret tt, w', t) /\
    looked_up_ids t = ids /\
    deleted_ids t = filter (fun i => confirmed_closed (lookup i)) ids.
Proof.
  destruct Hsteady as [Hq Hm].
  revert w. induction ids as [|i r IH]; intros w.
  - exists w, []. repeat split.
  - simpl. unfold bind. rewrite check_id_run.
    specialize (Hq i w).
    destruct (runQueryToGetPRForCardId env i w) as [o w1]. simpl in Hq. subst o.
    destruct (confirmed_closed (lookup i)).
    + specialize (Hm i w1).
      destruct (mutateDeleteProjectCard env i w1) as [o w2]. simpl in Hm. subst o.
      destruct (IH w2) as (w' & t & -> & Hl & Hd).
      exists w', ([QueryCardPR i; DeleteProjectCard i] +++ t).
      split; [reflexivity|]. simpl. rewrite Hl, Hd. split; reflexivity.
    + destruct (IH w1) as (w' & t & -> & Hl & Hd).
      exists w', ([QueryCardPR i; should_delete_line i (reason (lookup i))] +++ t).
      split; [reflexivity|]. simpl. rewrite Hl, Hd. split; reflexivity.
Qed.

Lemma handle_other_columns_steady (cardIDs : list string) (columns : list Column)
    (w : W) :
  exists w' t,
    handle_other_columns env cardIDs columns w = (Ret tt, w', t) /\
    looked_up_ids t = stale_cards cardIDs columns /\
    deleted_ids t
    = filter (fun i => confirmed_closed (lookup i)) (stale_cards cardIDs columns).
Proof.
  revert w. induction columns as [|c r IH]; intros w.
  - exists w, []. repeat split.
  - rewrite stale_cards_cons, filter_app. simpl handle_other_columns. unfold bind.
    assert (exists w1 t1,
              handle_column env cardIDs c w = (Ret tt, w1, t1) /\
              looked_up_ids t1 = stale_cards cardIDs [c] /\
              deleted_ids t1
              = filter (fun i => confirmed_closed (lookup i))
                       (stale_cards cardIDs [c])) as (w1 & t1 & -> & Hl1 & Hd1).
    { unfold handle_column, stale_cards, other_columns. simpl.
      destruct (String.eqb (name c) "Recently Merged"); simpl.
      - exists w, []. repeat split.
      - rewrite app_nil_r. destruct (stale_ids cardIDs c) as [|i l] eqn:E.
        + exists w, []. repeat split.
        + destruct (check_ids_steady (i :: l) w) as (w1 & t1 & Hc & Hl & Hd).
          rewrite (bind_Ret _ _ w tt w
                     [Console Log ("Cleaning up closed PRs in " ++ quoted (name c))])
            by reflexivity.
          rewrite Hc. eexists w1, _. split; [reflexivity|].
          split; [exact Hl | exact Hd]. }
    destruct (IH w1) as (w' & t & -> & Hl & Hd).
    exists w', (t1 +++ t). split; [reflexivity|].
    rewrite looked_up_ids_app, deleted_ids_app, Hl1, Hd1, Hl, Hd.
    split; reflexivity.
Qed.

End Steady.

(** X11: when the card query and the deletion depend on the card alone and
    do not throw, the loop over the other columns returns, having looked
    up each card of a column not named 'Recently Merged' whose id is not
    among the card ids of the open PRs, once and in order, and having
    deleted exactly those of them whose PR the query reports as
    "CLOSED". *)
Theorem closed_cards_are_the_ones_deleted
    {W RawInfo PrInfo D Action Mutation : Type}
    (env : Env W RawInfo PrInfo D Action Mutation)
    (lookup : string -> option CardPR)
    (cardIDs : list string) (columns : list Column) (w : W) :
  steady env lookup ->
  exists w' t,
    handle_other_columns env cardIDs columns w = (Ret tt, w', t) /\
    looked_up_ids t = stale_cards cardIDs columns /\
    deleted_ids t
    = filter (fun i => confirmed_closed (lookup i)) (stale_cards cardIDs columns).
Proof.
  intros Hs. apply handle_other_columns_steady. exact Hs.
Qed.

Lemma closed_cards_are_the_ones_deleted_witness :
  exists w' t,
    handle_other_columns env_review ["e"] [empty_archive; review_column] tt
    = (Ret tt, w', t) /\
    looked_up_ids t = ["a"; "b"; "c"; "d"] /\
    deleted_ids t = ["c"].
Proof.
  apply (closed_cards_are_the_ones_deleted env_review review_lookup ["e"]
           [empty_archive; review_column] tt).
  split; intros i w; reflexivity.
Defined.

(** X12: a board in step with the open PRs is left alone: when every card
    of every column not named 'Recently Merged' has its id among the card
    ids of the open PRs, the loop over the other columns asks nothing,
    deletes nothing and prints nothing. *)
Theorem board_in_step_is_left_alone
    {W RawInfo PrInfo D Action Mutation : Type}
    (env : Env W RawInfo PrInfo D Action Mutation)
    (cardIDs : list string) (columns : list Column) (w : W) :
  (forall column c,
     In column columns -> name column <> "Recently Merged" ->
     In c (cards column) -> In (id c) cardIDs) ->
  handle_other_columns env cardIDs columns w = (Ret tt, w, []).
Proof.
  revert w. induction columns as [|col r IH]; intros w H; [reflexivity|].
  simpl.
  assert (handle_column env cardIDs col w = (Ret tt, w, [])) as Hcol.
  { unfold handle_column.
    destruct (String.eqb (name col) "Recently Merged") eqn:En; [reflexivity|].
    apply String.eqb_neq in En.
    assert (stale_ids cardIDs col = []) as ->; [|reflexivity].
    unfold stale_ids.
    destruct (filter _ (map id (cards col))) as [|i l] eqn:E; [reflexivity|].
    assert (In i (filter (fun c => negb (existsb (String.eqb c) cardIDs))
                         (map id (cards col)))) as Hi
      by (rewrite E; left; reflexivity).
    apply filter_In in Hi as [Hi Hstale].
    apply in_map_iff in Hi as (c & <- & Hc).
    apply negb_true_iff in Hstale.
    assert (existsb (String.eqb (id c)) cardIDs = true) as Ht.
    { apply existsb_exists. exists (id c). split.
      - apply (H col c); auto. left. reflexivity.
      - apply String.eqb_refl. }
    congruence. }
  rewrite (bind_Ret _ _ w tt w [] Hcol).
  rewrite IH; [reflexivity|].
  intros column c Hin. apply H. right. exact Hin.
Qed.

Lemma board_in_step_is_left_alone_witness :
  handle_other_columns env_review ["a"; "b"; "c"; "d"; "e"]
    [mkColumn "Recently Merged" [card_at 0] 1; review_column] tt
  = (Ret tt, tt, []).
Proof.
  apply (board_in_step_is_left_alone env_review).
  intros column c [<-|[<-|[]]] Hname Hc.
  - exfalso. apply Hname. reflexivity.
  - simpl in Hc. simpl.
    repeat (destruct Hc as [<-|Hc]; [simpl; tauto|]). contradiction.
Defined.

(** X13: a card query that throws, and a deletion of a closed PR's card
    that throws, end the loop over the ids of a column with that error:
    the ids behind are neither looked up nor deleted. *)
Theorem failed_card_query_or_deletion_ends_the_loop
    {W RawInfo PrInfo D Action Mutation : Type}
    (env : Env W RawInfo PrInfo D Action Mutation)
    (before : list string) (i : string) (behind : list string)
    (w w1 : W) (t tail : trace) (e : exn) (w2 : W) :
  check_ids env before w = (Ret tt, w1, t) ->
  (runQueryToGetPRForCardId env i w1 = (Throw e, w2) /\ tail = [QueryCardPR i])
  \/ (exists info wq,
        runQueryToGetPRForCardId env i w1 = (Ret info, wq) /\
        confirmed_closed info = true /\
        mutateDeleteProjectCard env i wq = (Throw e, w2) /\
        tail = [QueryCardPR i; DeleteProjectCard i]) ->
  check_ids env (before ++ i :: behind)%list w = (Throw e, w2, t +++ tail).
Proof.
  intros Hbefore Hfail. rewrite check_ids_app, Hbefore.
  simpl check_ids. unfold bind. rewrite check_id_run.
  destruct Hfail as [[Hq ->]|(info & wq & Hq & Hc & Hm & ->)]; rewrite Hq.
  - reflexivity.
  - rewrite Hc, Hm. reflexivity.
Qed.

Lemma failed_card_query_or_deletion_ends_the_loop_witness :
  check_ids env_refusing ["a"; "b"; "c"; "d"] O
  = (Throw (JsError "deletion refused"), 4%nat,
     [QueryCardPR "a"; should_delete_line "a" "#12";
      QueryCardPR "b"; should_delete_line "b" "???"]
     +++ [QueryCardPR "c"; DeleteProjectCard "c"]) /\
  check_ids env_refusing ["a"; "x"; "b"] O
  = (Throw (JsError "query failed"), 2%nat,
     [QueryCardPR "a"; should_delete_line "a" "#12"] +++ [QueryCardPR "x"]).
Proof.
  split.
  - apply (failed_card_query_or_deletion_ends_the_loop env_refusing
             ["a"; "b"] "c" ["d"] O 2%nat); [reflexivity|].
    right. exists (Some (mkCardPR 9 "CLOSED")), 3%nat. repeat split.
  - apply (failed_card_query_or_deletion_ends_the_loop env_refusing
             ["a"] "x" ["b"] O 1%nat); [reflexivity|].
    left. split; reflexivity.
Defined.

(** ** Numbers as they are printed and read *)

Lemma digits_of_uint (d : Decimal.uint) :
  all_digits (NilEmpty.string_of_uint d) = true.
Proof. induction d; simpl; auto. Qed.

Lemma to_number_from_pos (d : Decimal.uint) (a : positive) :
  to_number_from (Z.pos a) (NilEmpty.string_of_uint d)
  = Z.pos (Pos.of_uint_acc d a).
Proof.
  revert a.
  induction d; intros a;
    cbn [NilEmpty.string_of_uint to_number_from Pos.of_uint_acc];
    [reflexivity|..];
    rewrite <- IHd; f_equal;
    match goal with
    | |- context [digit_value ?c] =>
        let v := eval vm_compute in (digit_value c) in
        change (digit_value c) with v
    end; lia.
Qed.

Lemma to_number_of_uint (d : Decimal.uint) :
  to_number (NilEmpty.string_of_uint d) = Z.of_N (Pos.of_uint d).
Proof.
  unfold to_number.
  induction d;
    cbn [NilEmpty.string_of_uint to_number_from Pos.of_uint Z.of_N];
    [reflexivity | exact IHd |..];
    rewrite <- to_number_from_pos; f_equal.
Qed.

(** A number that is not negative prints as a digit string that reads
    back as the number. *)
Lemma show_Z_reads_back (k : Z) :
  0 <= k -> match_number (show_Z k) = true /\ to_number (show_Z k) = k.
Proof.
  intros Hk. unfold show_Z. destruct k as [|p|p]; [split; reflexivity | | lia].
  simpl. unfold NilZero.string_of_uint.
  pose proof (Unsigned.to_uint_nonnil p) as Hnn.
  pose proof (Unsigned.of_to p) as Hof.
  destruct (Pos.to_uint p) eqn:E; [contradiction|..];
    (split;
     [ simpl; apply digits_of_uint
     | rewrite to_number_of_uint, Hof; reflexivity ]).
Qed.

Lemma zeros_read_as_nothing (m : nat) (s : string) :
  to_number (zeros m ++ s) = to_number s.
Proof. unfold to_number. induction m; simpl; auto. Qed.

Lemma zeros_are_digits (m : nat) (s : string) :
  match_number s = true -> match_number (zeros m ++ s) = true.
Proof.
  intros H. destruct m as [|m]; [exact H|]. simpl.
  induction m as [|m IH]; simpl.
  - destruct s; [discriminate | exact H].
  - exact IH.
Qed.

(** X14: numbers that yargs has already read as numbers are never
    rejected, and a non-empty list of them selects exactly the numbers
    listed. *)
Theorem number_tokens_select_their_numbers (k : Z) (ks : list Z) :
  exists ps,
    coerce (map TNum (k :: ks)) = Ret ps /\
    forall n, shouldRunOn ps n = true <-> In n (k :: ks).
Proof.
  assert (forall l, coerce (map TNum l) = Ret (map (fun k n => n =? k) l)) as Hc.
  { induction l as [|x l IH]; simpl; [reflexivity | rewrite IH; reflexivity]. }
  exists (map (fun k n => n =? k) (k :: ks)). split; [apply Hc|].
  intros n. simpl map. rewrite shouldRunOn_cons. split.
  - intros (q & Hq & Hn).
    change ((fun n => n =? k) :: map (fun k n => n =? k) ks)
      with (map (fun k n => n =? k) (k :: ks)) in Hq.
    apply in_map_iff in Hq as (x & <- & Hx).
    apply Z.eqb_eq in Hn. subst. exact Hx.
  - intros Hin. exists (fun m => m =? n). split.
    + change ((fun n => n =? k) :: map (fun k n => n =? k) ks)
        with (map (fun k n => n =? k) (k :: ks)).
      apply in_map_iff. exists n. auto.
    + apply Z.eqb_refl.
Qed.

(** X15: a PR number as the driver prints it, with or without zeros in
    front, is accepted as a token and selects that PR and no other.  This
    is for the numbers up to [Number.MAX_SAFE_INTEGER], which unary [+]
    reads exactly. *)
Theorem printed_number_selects_itself (m : nat) (k : Z) :
  0 <= k <= MAX_SAFE_INTEGER ->
  exists p,
    coerce_token (TStr (zeros m ++ show_Z k)) = Ret p /\
    forall n, p n = true <-> n = k.
Proof.
  intros [Hk _]. destruct (show_Z_reads_back k Hk) as [Hm Hn].
  unfold coerce_token. rewrite (zeros_are_digits m _ Hm).
  eexists. split; [reflexivity|].
  intros n. simpl. rewrite zeros_read_as_nothing, Hn. apply Z.eqb_eq.
Qed.

Lemma printed_number_selects_itself_witness :
  exists p,
    coerce_token (TStr "0042") = Ret p /\ forall n, p n = true <-> n = 42.
Proof.
  apply (printed_number_selects_itself 2 42). unfold MAX_SAFE_INTEGER. lia.
Defined.

(** X16: two printed numbers with a hyphen between them are accepted as a
    token and select the numbers from the first to the second, both
    included; when the first is the larger one the token is accepted all
    the same and selects nothing.  This is for numbers up to
    [Number.MAX_SAFE_INTEGER], which unary [+] reads exactly. *)
Theorem printed_range_selects_its_numbers (lo hi : Z) :
  0 <= lo <= MAX_SAFE_INTEGER -> 0 <= hi <= MAX_SAFE_INTEGER ->
  exists p,
    coerce_token (TStr (show_Z lo ++ "-" ++ show_Z hi)) = Ret p /\
    (forall n, p n = true <-> lo <= n <= hi) /\
    (hi < lo -> forall n, shouldRunOn [p] n = false).
Proof.
  intros [Hlo _] [Hhi _].
  destruct (show_Z_reads_back lo Hlo) as [Hmlo Hnlo].
  destruct (show_Z_reads_back hi Hhi) as [Hmhi Hnhi].
  pose proof (proj1 (match_number_spec _) Hmlo) as Hdlo.
  pose proof (proj1 (match_number_spec _) Hmhi) as Hdhi.
  unfold coerce_token.
  destruct (match_number (show_Z lo ++ "-" ++ show_Z hi)) eqn:Hnum.
  { exfalso. apply match_number_spec in Hnum.
    apply (number_is_not_range _ Hnum).
    exists (show_Z lo), (show_Z hi). auto. }
  rewrite (match_range_complete _ _ Hdlo Hdhi).
  eexists. split; [reflexivity|].
  assert (forall n,
            (to_number (show_Z lo) <=? n) && (n <=? to_number (show_Z hi)) = true
            <-> lo <= n <= hi) as Hp.
  { intros n. rewrite Hnlo, Hnhi, andb_true_iff, !Z.leb_le. reflexivity. }
  split; [exact Hp|].
  intros Hlt n. unfold shouldRunOn, existsb. rewrite orb_false_r.
  destruct ((to_number (show_Z lo) <=? n) && (n <=? to_number (show_Z hi))) eqn:E;
    [|reflexivity].
  apply Hp in E. lia.
Qed.

Lemma printed_range_selects_its_numbers_witness :
  exists p,
    coerce_token (TStr "12-10") = Ret p /\
    (forall n, p n = true <-> 12 <= n <= 10) /\
    (10 < 12 -> forall n, shouldRunOn [p] n = false).
Proof.
  apply (printed_range_selects_its_numbers 12 10); unfold MAX_SAFE_INTEGER; lia.
Defined.

(** ** The display helpers *)

(** Induction on values, with the hypothesis for every element of an
    array and every property of an object. *)
Lemma value_induction (P : value -> Prop) :
  (forall s, P (VString s)) ->
  (forall p, P (VPrimitive p)) ->
  (forall l, Forall P l -> P (VArray l)) ->
  (forall o, Forall (fun kv => P (snd kv)) o -> P (VObject o)) ->
  forall x, P x.
Proof.
  intros Hs Hp Ha Ho. fix IH 1. intros [s|p|l|o].
  - apply Hs.
  - apply Hp.
  - apply Ha. induction l as [|e l IHl]; constructor; [apply IH | exact IHl].
  - apply Ho. induction o as [|[k v] o IHo]; constructor; [apply IH | exact IHo].
Qed.

Lemma xform_id (x : value) : xform x (fun s => s) = x.
Proof.
  induction x as [s|p|l IHl|o IHo] using value_induction; simpl.
  - reflexivity.
  - reflexivity.
  - f_equal. induction IHl as [|e l He _ IH]; simpl; [reflexivity|].
    rewrite He, IH. reflexivity.
  - f_equal. induction IHo as [|[k v] o Hv _ IH]; simpl; [reflexivity|].
    simpl in Hv. rewrite Hv, IH. reflexivity.
Qed.

Lemma xform_xform (x : value) (f g : string -> string) :
  xform (xform x f) g = xform x (fun s => g (f s)).
Proof.
  induction x as [s|p|l IHl|o IHo] using value_induction; simpl.
  - reflexivity.
  - reflexivity.
  - f_equal. induction IHl as [|e l He _ IH]; simpl; [reflexivity|].
    rewrite He, IH. reflexivity.
  - f_equal. induction IHo as [|[k v] o Hv _ IH]; simpl; [reflexivity|].
    simpl in Hv. rewrite Hv, IH. reflexivity.
Qed.

(** X17: [xform] with the translation that changes nothing changes
    nothing, and two passes of [xform] are one pass with the two
    translations applied one after the other. *)
Theorem xform_passes_compose (x : value) :
  xform x (fun s => s) = x /\
  forall f g, xform (xform x f) g = xform x (fun s => g (f s)).
Proof. split; [apply xform_id | intros f g; apply xform_xform]. Qed.

Lemma xform_strings (x : value) (f : string -> string) :
  strings (xform x f) = map f (strings x).
Proof.
  induction x as [s|p|l IHl|o IHo] using value_induction; simpl.
  - reflexivity.
  - reflexivity.
  - induction IHl as [|e l He _ IH]; simpl; [reflexivity|].
    rewrite He, IH, map_app. reflexivity.
  - induction IHo as [|[k v] o Hv _ IH]; simpl; [reflexivity|].
    simpl in Hv. rewrite Hv, IH, map_app. reflexivity.
Qed.

Lemma xform_keys (o : list (string * value)) (f : string -> string) :
  map fst (map (fun kv => match kv with (k, v) => (k, xform v f) end) o)
  = map fst o.
Proof.
  induction o as [|[k v] o IH]; simpl; [reflexivity | rewrite IH; reflexivity].
Qed.

Lemma xform_well_formed (x : value) (f : string -> string) :
  well_formed x -> well_formed (xform x f).
Proof.
  induction x as [s|p|l IHl|o IHo] using value_induction; simpl; auto.
  - induction IHl as [|e l He _ IH]; simpl; [auto|].
    intros [H1 H2]. split; auto.
  - intros [Hnd Hall]. split.
    + rewrite xform_keys. exact Hnd.
    + clear Hnd. induction IHo as [|[k v] o Hv _ IH]; simpl; [auto|].
      simpl in Hv, Hall. destruct Hall as [H1 H2]. split; auto.
Qed.

Lemma xform_ext (x : value) (f g : string -> string) :
  (forall s, In s (strings x) -> f s = g s) -> xform x f = xform x g.
Proof.
  induction x as [s|p|l IHl|o IHo] using value_induction; simpl; intros H.
  - rewrite H; auto.
  - reflexivity.
  - f_equal. induction IHl as [|e l He _ IH]; simpl; [reflexivity|].
    simpl in H. rewrite He, IH; [reflexivity | |];
      intros s Hs; apply H; apply in_or_app; auto.
  - f_equal. induction IHo as [|[k v] o Hv _ IH]; simpl; [reflexivity|].
    simpl in Hv, H. rewrite Hv, IH; [reflexivity | |];
      intros s Hs; apply H; apply in_or_app; auto.
Qed.

(** X18: [xform] translates the strings of a value, each once and in
    place, and nothing else: the strings of the result are the
    translations of the strings of the value, in the same order; the keys
    of an object and their order are kept, so every object of the result
    still has each of its keys once; and the result depends on the
    translation only through what it does to the strings of the value. *)
Theorem xform_translates_the_strings (x : value) (f : string -> string) :
  strings (xform x f) = map f (strings x) /\
  (well_formed x -> well_formed (xform x f)) /\
  (forall o, x = VObject o ->
     exists o', xform x f = VObject o' /\ map fst o' = map fst o) /\
  (forall g, (forall s, In s (strings x) -> f s = g s) -> xform x f = xform x g).
Proof.
  split; [apply xform_strings|]. split; [apply xform_well_formed|]. split.
  - intros o ->. eexists. split; [reflexivity | apply xform_keys].
  - intros g. apply xform_ext.
Qed.

Lemma space_is_no_terminator : is_line_terminator space = false.
Proof. reflexivity. Qed.

Lemma lines_from_acc (acc s : code_units) :
  lines_from acc s
  = match lines_from [] s with
    | [] => []
    | l :: ls => (rev acc ++ l)%list :: ls
    end.
Proof.
  revert acc. induction s as [|c r IH]; intros acc; simpl.
  - rewrite app_nil_r. reflexivity.
  - destruct (is_line_terminator c).
    + rewrite app_nil_r. reflexivity.
    + rewrite (IH (c :: acc)), (IH [c]).
      destruct (lines_from [] r) as [|l ls]; [reflexivity|].
      simpl. rewrite <- app_assoc. reflexivity.
Qed.

Lemma lines_from_indent_behind (acc s : code_units) :
  lines_from acc (indent_behind s)
  = match lines_from acc s with
    | [] => []
    | l :: ls => l :: map (fun line => space :: space :: line) ls
    end.
Proof.
  revert acc. induction s as [|c r IH]; intros acc; simpl.
  - reflexivity.
  - destruct (is_line_terminator c) eqn:E; simpl; rewrite E.
    + f_equal. simpl. rewrite IH, (lines_from_acc [space; space] r).
      destruct (lines_from [] r) as [|l ls]; reflexivity.
    + apply IH.
Qed.

Lemma lines_from_count (acc s : code_units) :
  List.length (lines_from acc s) = S (List.length (terminators s)).
Proof.
  unfold terminators. revert acc.
  induction s as [|c r IH]; intros acc; simpl; [reflexivity|].
  destruct (is_line_terminator c); simpl; rewrite IH; reflexivity.
Qed.

Lemma terminators_indent_behind (s : code_units) :
  terminators (indent_behind s) = terminators s.
Proof.
  unfold terminators. induction s as [|c r IH]; simpl; [reflexivity|].
  destruct (is_line_terminator c) eqn:E; simpl; rewrite E, ?IH; reflexivity.
Qed.

Lemma indent_behind_length (s : code_units) :
  List.length (indent_behind s)
  = (List.length s + 2 * List.length (terminators s))%nat.
Proof.
  unfold terminators. induction s as [|c r IH]; simpl; [reflexivity|].
  destruct (is_line_terminator c); simpl; rewrite IH; lia.
Qed.

(** X19: the indentation of [show] puts two spaces in front of every line
    of the text, the empty lines and the last one included, and changes
    nothing else: the line terminators are the same, and the text grows by
    two code units for each line. *)
Theorem indent_indents_every_line (s : code_units) :
  lines (indent s) = map (fun line => space :: space :: line) (lines s) /\
  terminators (indent s) = terminators s /\
  List.length (lines s) = S (List.length (terminators s)) /\
  List.length (indent s) = (List.length s + 2 * List.length (lines s))%nat.
Proof.
  split; [|split; [|split]].
  - unfold lines, indent. simpl.
    rewrite lines_from_indent_behind, (lines_from_acc [space; space] s).
    destruct (lines_from [] s) as [|l ls]; reflexivity.
  - unfold indent. change (terminators (space :: space :: indent_behind s))
      with (terminators (indent_behind s)).
    apply terminators_indent_behind.
  - apply lines_from_count.
  - unfold lines, indent. rewrite lines_from_count. simpl.
    rewrite indent_behind_length. lia.
Qed.

Lemma sorted_skipn {A : Type} (R : A -> A -> Prop) (n : nat) (l : list A) :
  StronglySorted R l -> StronglySorted R (skipn n l).
Proof.
  revert l. induction n as [|n IH]; intros l H; [exact H|].
  destruct l as [|a l]; [exact H|]. simpl. apply IH.
  inversion H; assumption.
Qed.

(** X20: for fetched cards whose [updatedAt] values are of one layout,
    the cut of the archive column splits the cards by age.  The cards it
    keeps and the cards it deletes are together the fetched cards, each
    once; it keeps 50 cards, or all of them when fewer were fetched; the
    deletions go in ascending order of [updatedAt]; and every kept card
    was updated no later than every deleted one. *)
Theorem archive_cut_splits_by_age (cs : list Card) :
  one_layout cs = true ->
  Permutation (first50 cs ++ afterFirst50 cs)%list cs /\
  List.length (first50 cs) = Nat.min 50 (List.length cs) /\
  StronglySorted (fun x y => String.leb (updatedAt x) (updatedAt y) = true)
                 (afterFirst50 cs) /\
  Forall (fun kept =>
            Forall (fun deleted =>
                      String.leb (updatedAt kept) (updatedAt deleted) = true)
                   (afterFirst50 cs))
         (first50 cs).
Proof.
  intros _. unfold first50, afterFirst50. split; [|split; [|split]].
  - rewrite firstn_skipn. apply sort_cards_perm.
  - rewrite length_firstn, sort_cards_length. reflexivity.
  - apply sorted_skipn, sort_cards_sorted.
  - apply Forall_forall. intros kept Hk. apply Forall_forall. intros deleted Hd.
    revert kept deleted Hk Hd. apply sorted_app_le.
    rewrite firstn_skipn. apply sort_cards_sorted.
Qed.

Lemma archive_cut_splits_by_age_witness :
  Permutation (first50 cards73 ++ afterFirst50 cards73)%list cards73 /\
  List.length (first50 cards73) = Nat.min 50 (List.length cards73) /\
  StronglySorted (fun x y => String.leb (updatedAt x) (updatedAt y) = true)
                 (afterFirst50 cards73) /\
  Forall (fun kept =>
            Forall (fun deleted =>
                      String.leb (updatedAt kept) (updatedAt deleted) = true)
                   (afterFirst50 cards73))
         (first50 cards73).
Proof.
  apply (archive_cut_splits_by_age cards73). vm_compute. reflexivity.
Defined.

(** ** The display flags *)

Lemma quiet_app (t1 t2 : trace) : quiet (t1 +++ t2) = quiet t1 +++ quiet t2.
Proof. apply filter_app. Qed.

Lemma quiet_shown (b : bool) (title : string) : quiet (shown b title) = [].
Proof. destruct b; reflexivity. Qed.

Lemma quiet_sunk (b : bool) (k : nat) : quiet (sunk_lines b k) = [].
Proof.
  destruct b; [|reflexivity]. simpl.
  induction k as [|k IH]; simpl; [reflexivity | exact IH].
Qed.

Lemma quiet_prelude (a : Args) (prs : list Z) (pr : Z) :
  quiet (prelude a prs pr) = [processing_line prs pr; QueryPRInfo pr].
Proof.
  unfold prelude. rewrite quiet_app, quiet_shown. reflexivity.
Qed.

Lemma quiet_planning {D : Type} (a : Args) (prs : list Z) (pr : Z)
    (st : BotResult D) (k : nat) :
  quiet (planning a prs pr st k)
  = [processing_line prs pr; QueryPRInfo pr] +++ state_lines st.
Proof.
  unfold planning.
  rewrite !quiet_app, quiet_prelude, quiet_shown, quiet_sunk, app_nil_r.
  f_equal. unfold state_lines. destruct st as [m|[m|] d]; reflexivity.
Qed.

Lemma quiet_executing {D : Type} (a : Args) (prs : list Z) (pr : Z)
    (st : BotResult D) (k : nat) :
  quiet (executing a prs pr st k)
  = [processing_line prs pr; QueryPRInfo pr] +++ state_lines st
    +++ [ExecuteActions pr (dry a)].
Proof.
  unfold executing.
  rewrite !quiet_app, quiet_planning, quiet_shown, <- app_assoc. reflexivity.
Qed.

(** [start], call by call. *)
Lemma start_unfolded
    {W RawInfo PrInfo D Action Mutation : Type}
    (env : Env W RawInfo PrInfo D Action Mutation) (args : Args) (w : W) :
  start env args w
  = match getAllOpenPRsAndCardIDs env w with
    | (Throw e, w1) => (Throw e, w1, opening)
    | (Ret (prs, cardIDs), w1) =>
        match process_prs env args prs prs [] w1 with
        | (Throw e, w2, t) => (Throw e, w2, opening +++ t)
        | (Ret failures, w2, t) =>
            let '(o, w3, t') := finish env args cardIDs failures w2 in
            (o, w3, opening +++ t +++ t')
        end
    end.
Proof.
  unfold start, bind, console, emit, call.
  destruct (getAllOpenPRsAndCardIDs env w) as [[[prs cardIDs]|e] w1];
    [|reflexivity].
  destruct (process_prs env args prs prs [] w1) as [[[failures|e] w2] t];
    [|reflexivity].
  destruct (finish env args cardIDs failures w2) as [[o w3] t']. reflexivity.
Qed.

Section DisplayFlags.

Context {W RawInfo PrInfo D Action Mutation : Type}.
Variable env : Env W RawInfo PrInfo D Action Mutation.
Variables a1 a2 : Args.
Hypothesis Hsame : same_but_for_display a1 a2.

Lemma process_pr_quiet prs pr failures w :
  fst (process_pr env a1 prs pr failures w) = fst (process_pr env a2 prs pr failures w) /\
  quiet (snd (process_pr env a1 prs pr failures w))
  = quiet (snd (process_pr env a2 prs pr failures w)).
Proof.
  destruct Hsame as (Hdry & Hclean & Hpos & Hext).
  destruct (shouldRunOn (positional a1) pr) eqn:Hsel1.
  2: { rewrite (process_pr_not_selected env a1 prs pr failures w Hsel1).
       rewrite Hpos in Hsel1.
       rewrite (process_pr_not_selected env a2 prs pr failures w Hsel1).
       split; reflexivity. }
  assert (shouldRunOn (positional a2) pr = true) as Hsel2
    by (rewrite <- Hpos; exact Hsel1).
  destruct (getPRInfo env pr w) as [[info|e] w1] eqn:Hget.
  2: { rewrite (process_pr_fetch_throws env a1 prs pr failures w e w1 Hsel1 Hget).
       rewrite (process_pr_fetch_throws env a2 prs pr failures w e w1 Hsel2 Hget).
       split; reflexivity. }
  destruct (pullRequest env info) as [prInfo|] eqn:Hpr.
  2: { rewrite (process_pr_missing env a1 prs pr failures w info w1 Hsel1 Hget Hpr).
       rewrite (process_pr_missing env a2 prs pr failures w info w1 Hsel2 Hget Hpr).
       cbn [fst snd]. rewrite !quiet_app, !quiet_prelude. split; reflexivity. }
  destruct (deriveStateForPR env prInfo w1) as [[st|e] w2] eqn:Hd.
  2: { rewrite (process_pr_derive_throws env a1 prs pr failures w info w1
                  prInfo e w2 Hsel1 Hget Hpr Hd).
       rewrite (process_pr_derive_throws env a2 prs pr failures w info w1
                  prInfo e w2 Hsel2 Hget Hpr Hd).
       cbn [fst snd]. rewrite !quiet_app, !quiet_prelude. split; reflexivity. }
  destruct (computeActions env st (truthy (show_extended a1)))
    as [k [actions|e]] eqn:Hc1.
  2: { rewrite (process_pr_plan_throws env a1 prs pr failures w info w1
                  prInfo st w2 k e Hsel1 Hget Hpr Hd Hc1).
       rewrite Hext in Hc1.
       rewrite (process_pr_plan_throws env a2 prs pr failures w info w1
                  prInfo st w2 k e Hsel2 Hget Hpr Hd Hc1).
       cbn [fst snd]. rewrite !quiet_planning. split; reflexivity. }
  assert (computeActions env st (truthy (show_extended a2)) = (k, Ret actions))
    as Hc2 by (rewrite <- Hext; exact Hc1).
  destruct (executePrActions env actions prInfo (dry a1) w2)
    as [[mutations|e] w3] eqn:He1.
  - rewrite (process_pr_done env a1 prs pr failures w info w1 prInfo st w2 k
               actions mutations w3 Hsel1 Hget Hpr Hd Hc1 He1).
    rewrite Hdry in He1.
    rewrite (process_pr_done env a2 prs pr failures w info w1 prInfo st w2 k
               actions mutations w3 Hsel2 Hget Hpr Hd Hc2 He1).
    cbn [fst snd]. rewrite !quiet_app, !quiet_executing, !quiet_shown, Hdry.
    split; reflexivity.
  - rewrite (process_pr_execute_throws env a1 prs pr failures w info w1
               prInfo st w2 k actions e w3 Hsel1 Hget Hpr Hd Hc1 He1).
    rewrite Hdry in He1.
    rewrite (process_pr_execute_throws env a2 prs pr failures w info w1
               prInfo st w2 k actions e w3 Hsel2 Hget Hpr Hd Hc2 He1).
    cbn [fst snd]. rewrite !quiet_executing, Hdry. split; reflexivity.
Qed.

Lemma process_prs_quiet prs rest failures w :
  fst (process_prs env a1 prs rest failures w)
  = fst (process_prs env a2 prs rest failures w) /\
  quiet (snd (process_prs env a1 prs rest failures w))
  = quiet (snd (process_prs env a2 prs rest failures w)).
Proof.
  revert failures w. induction rest as [|pr rest IH]; intros failures w.
  - split; reflexivity.
  - simpl. unfold bind.
    destruct (process_pr_quiet prs pr failures w) as [Ho Ht].
    destruct (process_pr env a1 prs pr failures w) as [[o1 w1] t1].
    destruct (process_pr env a2 prs pr failures w) as [[o2 w2] t2].
    simpl in Ho, Ht. inversion Ho; subst o2 w2.
    destruct o1 as [failures1|e].
    + destruct (IH failures1 w1) as [Ho' Ht'].
      destruct (process_prs env a1 prs rest failures1 w1) as [[o3 w3] t3].
      destruct (process_prs env a2 prs rest failures1 w1) as [[o4 w4] t4].
      simpl in *. inversion Ho'; subst.
      rewrite !quiet_app, Ht, Ht'. split; reflexivity.
    + simpl. rewrite Ht. split; reflexivity.
Qed.

Lemma finish_same cardIDs failures :
  finish env a1 cardIDs failures = finish env a2 cardIDs failures.
Proof.
  destruct Hsame as (Hdry & Hclean & _). unfold finish.
  rewrite Hdry, Hclean. reflexivity.
Qed.

Lemma start_quiet w :
  fst (start env a1 w) = fst (start env a2 w) /\
  quiet (snd (start env a1 w)) = quiet (snd (start env a2 w)).
Proof.
  rewrite !start_unfolded.
  destruct (getAllOpenPRsAndCardIDs env w) as [[[prs cardIDs]|e] w1];
    [|split; reflexivity].
  destruct (process_prs_quiet prs prs [] w1) as [Ho Ht].
  destruct (process_prs env a1 prs prs [] w1) as [[o1 w2] t1].
  destruct (process_prs env a2 prs prs [] w1) as [[o2 w2'] t2].
  simpl in Ho, Ht. inversion Ho; subst o2 w2'.
  destruct o1 as [failures|e].
  - rewrite finish_same.
    destruct (finish env a2 cardIDs failures w2) as [[o3 w3] t3].
    cbn [fst snd]. rewrite !quiet_app, Ht. split; reflexivity.
  - cbn [fst snd]. rewrite !quiet_app, Ht. split; reflexivity.
Qed.

End DisplayFlags.

(** X21: the flags that display the raw result, the derived state, the
    actions and the mutations, and the format, only add to what is
    displayed.  Two runs from the same world whose command lines differ in
    nothing else end with the same exit code in the same world, and apart
    from what [show] displays they leave the same trace: the same lines,
    queries, executor calls and deletions in the same order. *)
Theorem display_flags_only_display
    {W RawInfo PrInfo D Action Mutation : Type}
    (env : Env W RawInfo PrInfo D Action Mutation) (a1 a2 : Args) (w : W) :
  same_but_for_display a1 a2 ->
  fst (run env a1 w) = fst (run env a2 w) /\
  quiet (snd (run env a1 w)) = quiet (snd (run env a2 w)).
Proof.
  intros Hsame. rewrite !run_trace.
  destruct (start_quiet env a1 a2 Hsame w) as [Ho Ht].
  destruct (start env a1 w) as [[o1 w1] t1].
  destruct (start env a2 w) as [[o2 w2] t2].
  simpl in Ho, Ht. inversion Ho; subst o2 w2.
  destruct o1 as [u|e]; simpl.
  - rewrite Ht. split; reflexivity.
  - rewrite !quiet_app, Ht. split; reflexivity.
Qed.

Lemma display_flags_only_display_witness :
  fst (run env_ci_failed verbose_args tt) = fst (run env_ci_failed default_args tt) /\
  quiet (snd (run env_ci_failed verbose_args tt))
  = quiet (snd (run env_ci_failed default_args tt)) /\
  snd (run env_ci_failed verbose_args tt)
  <> snd (run env_ci_failed default_args tt).
Proof.
  destruct (display_flags_only_display env_ci_failed verbose_args default_args tt)
    as [Ho Ht].
  - repeat split.
  - split; [exact Ho|]. split; [exact Ht|]. discriminate.
Defined.

(** X22: for a PR that is processed to the end, the mutations are put on
    display exactly when the flag for it is set, or is not given while the
    run is a dry one: a dry run displays its mutations unless it is told
    not to. *)
Theorem mutations_are_displayed_by_default_when_dry
    {W RawInfo PrInfo D Action Mutation : Type}
    (env : Env W RawInfo PrInfo D Action Mutation) (args : Args)
    (prs : list Z) (pr : Z) (failures : list (exn * Z))
    (w : W) (info : RawInfo) (w1 : W) (prInfo : PrInfo)
    (st : BotResult D) (w2 : W) (k : nat) (actions : list Action)
    (mutations : list Mutation) (w3 : W) :
  shouldRunOn (positional args) pr = true ->
  getPRInfo env pr w = (Ret info, w1) ->
  pullRequest env info = Some prInfo ->
  deriveStateForPR env prInfo w1 = (Ret st, w2) ->
  computeActions env st (truthy (show_extended args)) = (k, Ret actions) ->
  executePrActions env actions prInfo (dry args) w2 = (Ret mutations, w3) ->
  In (Display "Mutations") (snd (process_pr env args prs pr failures w))
  <-> (show_mutations args = Some true
       \/ (show_mutations args = None /\ dry args = true)).
Proof.
  intros Hsel Hget Hpr Hd Hc He.
  rewrite (process_pr_done env args prs pr failures w info w1 prInfo st w2 k
             actions mutations w3 Hsel Hget Hpr Hd Hc He).
  cbn [snd].
  assert (~ In (Display "Mutations") (executing args prs pr st k)) as Hnot.
  { unfold executing, planning, prelude, state_lines, sunk_lines, shown.
    intros Hin.
    repeat (apply in_app_or in Hin; destruct Hin as [Hin|Hin]);
      repeat match goal with
             | H : In _ (if ?b then _ else _) |- _ => destruct b
             | H : In _ (match ?x with _ => _ end) |- _ => destruct x
             | H : In _ (repeat _ _) |- _ => apply repeat_spec in H
             | H : In _ (_ :: _) |- _ => destruct H as [H|H]
             | H : In _ [] |- _ => destruct H
             | H : _ = Display _ |- _ => discriminate H
             end. }
  rewrite in_app_iff. split.
  - intros [Hin|Hin]; [contradiction|].
    destruct (show_mutations args) as [[]|]; simpl in Hin; auto.
    + destruct Hin.
    + destruct (dry args); simpl in Hin; [auto | destruct Hin].
  - intros [->|[-> ->]]; right; simpl; auto.
Qed.

Lemma mutations_are_displayed_by_default_when_dry_witness :
  In (Display "Mutations")
     (snd (process_pr env_ci_failed dry_args [101; 102] 102 [] tt))
  <-> (show_mutations dry_args = Some true
       \/ (show_mutations dry_args = None /\ dry dry_args = true)).
Proof.
  apply (mutations_are_displayed_by_default_when_dry env_ci_failed dry_args
           [101; 102] 102 [] tt (Some 102) tt 102 ok_state tt O
           ["add label"] ["add label"] tt); reflexivity.
Defined.

(** ** From a card query to what follows it *)

Lemma cons_eq_app {A : Type} (x y : A) (l t1 t2 : list A) :
  x :: l = (t1 ++ y :: t2)%list ->
  (t1 = [] /\ x = y /\ l = t2) \/
  (exists t1', t1 = x :: t1' /\ l = (t1' ++ y :: t2)%list).
Proof.
  destruct t1 as [|z t1']; simpl; intros H; inversion H; subst.
  - left. auto.
  - right. exists t1'. auto.
Qed.

Lemma card_blocks_app (t1 t2 : trace) :
  card_blocks t1 -> card_blocks t2 -> card_blocks (t1 +++ t2).
Proof.
  induction 1; simpl; intros H2.
  - exact H2.
  - apply blocks_line. auto.
  - apply blocks_query. auto.
  - apply blocks_delete. auto.
Qed.

(** In a trace of blocks, a deletion stands right behind the query for the
    same card. *)
Lemma blocks_adjacent (t : trace) :
  card_blocks t ->
  forall t1 i t2,
    t = t1 +++ DeleteProjectCard i :: t2 ->
    exists t0, t1 = t0 +++ [QueryCardPR i].
Proof.
  induction 1 as [|s line t Ht IH|j t Ht IH|j t Ht IH]; intros t1 i t2 E.
  - destruct t1; discriminate E.
  - apply cons_eq_app in E as [(_ & E & _)|(t1' & -> & E)]; [discriminate E|].
    destruct (IH _ _ _ E) as (t0 & ->). exists (Console s line :: t0). reflexivity.
  - apply cons_eq_app in E as [(_ & E & _)|(t1' & -> & E)]; [discriminate E|].
    destruct (IH _ _ _ E) as (t0 & ->). exists (QueryCardPR j :: t0). reflexivity.
  - apply cons_eq_app in E as [(_ & E & _)|(t1' & -> & E)]; [discriminate E|].
    apply cons_eq_app in E as [(-> & E & _)|(t1'' & -> & E)].
    + inversion E; subst. exists []. reflexivity.
    + destruct (IH _ _ _ E) as (t0 & ->).
      exists (QueryCardPR j :: DeleteProjectCard j :: t0). reflexivity.
Qed.

Section Lookups.

Context {W RawInfo PrInfo D Action Mutation : Type}.
Variable env : Env W RawInfo PrInfo D Action Mutation.

(** One turn of the loop over the ids, and then the rest of the loop and
    whatever comes behind the loop. *)
Lemma bind_check_ids_cons (k : M W unit) (j : string) (r : list string) (w : W) :
  bind W (check_ids env (j :: r)) (fun _ => k) w
  = match runQueryToGetPRForCardId env j w with
    | (Throw e, w1) => (Throw e, w1, [QueryCardPR j])
    | (Ret info, w1) =>
        if confirmed_closed info
        then match mutateDeleteProjectCard env j w1 with
             | (Throw e, w2) =>
                 (Throw e, w2, [QueryCardPR j; DeleteProjectCard j])
             | (Ret _, w2) =>
                 let '(o, w3, t) := bind W (check_ids env r) (fun _ => k) w2 in
                 (o, w3, QueryCardPR j :: DeleteProjectCard j :: t)
             end
        else let '(o, w3, t) := bind W (check_ids env r) (fun _ => k) w1 in
             (o, w3, QueryCardPR j :: should_delete_line j (reason info) :: t)
    end.
Proof.
  simpl check_ids. unfold bind at 1 2. rewrite check_id_run.
  destruct (runQueryToGetPRForCardId env j w) as [[info|e] w1]; [|reflexivity].
  destruct (confirmed_closed info).
  - destruct (mutateDeleteProjectCard env j w1) as [[[]|e] w2]; [|reflexivity].
    unfold bind.
    destruct (check_ids env r w2) as [[[[]|e] w3] t]; [|reflexivity].
    destruct (k w3) as [[o w4] t']. reflexivity.
  - unfold bind.
    destruct (check_ids env r w1) as [[[[]|e] w3] t]; [|reflexivity].
    destruct (k w3) as [[o w4] t']. reflexivity.
Qed.

Lemma check_ids_cons (j : string) (r : list string) (w : W) :
  check_ids env (j :: r) w
  = match runQueryToGetPRForCardId env j w with
    | (Throw e, w1) => (Throw e, w1, [QueryCardPR j])
    | (Ret info, w1) =>
        if confirmed_closed info
        then match mutateDeleteProjectCard env j w1 with
             | (Throw e, w2) =>
                 (Throw e, w2, [QueryCardPR j; DeleteProjectCard j])
             | (Ret _, w2) =>
                 let '(o, w3, t) := check_ids env r w2 in
                 (o, w3, QueryCardPR j :: DeleteProjectCard j :: t)
             end
        else let '(o, w3, t) := check_ids env r w1 in
             (o, w3, QueryCardPR j :: should_delete_line j (reason info) :: t)
    end.
Proof.
  simpl check_ids. unfold bind. rewrite check_id_run.
  destruct (runQueryToGetPRForCardId env j w) as [[info|e] w1]; [|reflexivity].
  destruct (confirmed_closed info).
  - destruct (mutateDeleteProjectCard env j w1) as [[[]|e] w2]; [|reflexivity].
    destruct (check_ids env r w2) as [[o w3] t]. reflexivity.
  - destruct (check_ids env r w1) as [[o w3] t]. reflexivity.
Qed.

(** What stands behind the query with which the rest of a loop begins. *)
Lemma follows_first_lookup (k : M W unit) (i : string) (behind : list string)
    (wq : W) (t2 : trace) :
  QueryCardPR i :: t2 = snd (bind W (check_ids env (i :: behind)) (fun _ => k) wq) ->
  follows_lookup i (fst (runQueryToGetPRForCardId env i wq)) t2.
Proof.
  rewrite bind_check_ids_cons. unfold follows_lookup.
  destruct (runQueryToGetPRForCardId env i wq) as [[info|e] w1]; cbn [fst].
  - destruct (confirmed_closed info) eqn:Hc.
    + destruct (mutateDeleteProjectCard env i w1) as [[[]|e] w2].
      * destruct (bind W (check_ids env behind) (fun _ => k) w2) as [[o w3] t].
        cbn [snd]. intros H. inversion H. eauto.
      * cbn [snd]. intros H. inversion H. eauto.
    + destruct (bind W (check_ids env behind) (fun _ => k) w1) as [[o w3] t].
      cbn [snd]. intros H. inversion H. eauto.
  - cbn [snd]. intros H. inversion H. reflexivity.
Qed.

(** The first id of the loop has been looked at and the loop has gone on:
    what holds of a query in the rest of the loop holds of it in the whole
    loop. *)
Lemma lookup_in_ids_step (k : M W unit) (j : string) (r : list string)
    (w wr : W) (x : event) (t1 : trace) (i : string) (t2 : trace) :
  check_ids env [j] w = (Ret tt, wr, [QueryCardPR j; x]) ->
  looked_up_ids [x] = [] ->
  (exists before behind wq,
     r = (before ++ i :: behind)%list /\
     fst (check_ids env before wr) = (Ret tt, wq) /\
     looked_up_ids t1 = before /\
     QueryCardPR i :: t2
     = snd (bind W (check_ids env (i :: behind)) (fun _ => k) wq))
  \/ (exists w1 tc t1',
        check_ids env r wr = (Ret tt, w1, tc) /\
        t1 = tc +++ t1' /\
        snd (k w1) = t1' +++ QueryCardPR i :: t2) ->
  (exists before behind wq,
     j :: r = (before ++ i :: behind)%list /\
     fst (check_ids env before w) = (Ret tt, wq) /\
     looked_up_ids (QueryCardPR j :: x :: t1) = before /\
     QueryCardPR i :: t2
     = snd (bind W (check_ids env (i :: behind)) (fun _ => k) wq))
  \/ (exists w1 tc t1',
        check_ids env (j :: r) w = (Ret tt, w1, tc) /\
        QueryCardPR j :: x :: t1 = tc +++ t1' /\
        snd (k w1) = t1' +++ QueryCardPR i :: t2).
Proof.
  intros Hj Hx [(before & behind & wq & -> & Hw & Hl & Hrest)
               |(w1 & tc & t1' & Hc & -> & Hk)].
  - left. exists (j :: before), behind, wq. repeat split.
    + change (j :: before) with ([j] ++ before)%list.
      rewrite check_ids_app, Hj.
      destruct (check_ids env before wr) as [[o w2] t]. cbn [fst] in *.
      inversion Hw; subst. reflexivity.
    + change (QueryCardPR j :: x :: t1) with ([QueryCardPR j] +++ [x] +++ t1).
      rewrite !looked_up_ids_app, Hx, Hl. reflexivity.
    + exact Hrest.
  - right. exists w1, (QueryCardPR j :: x :: tc), t1'. repeat split.
    + change (j :: r) with ([j] ++ r)%list.
      rewrite check_ids_app, Hj, Hc. reflexivity.
    + exact Hk.
Qed.

(** A card query in the trace of a loop over ids with something behind
    it: either it is a query of the loop, asked in the world that the
    looks before it have left, or it belongs to what comes behind. *)
Lemma lookup_in_ids (k : M W unit) (ids : list string) :
  forall (w : W) (t1 : trace) (i : string) (t2 : trace),
    snd (bind W (check_ids env ids) (fun _ => k) w) = t1 +++ QueryCardPR i :: t2 ->
    (exists before behind wq,
       ids = (before ++ i :: behind)%list /\
       fst (check_ids env before w) = (Ret tt, wq) /\
       looked_up_ids t1 = before /\
       QueryCardPR i :: t2
       = snd (bind W (check_ids env (i :: behind)) (fun _ => k) wq))
    \/ (exists w1 tc t1',
          check_ids env ids w = (Ret tt, w1, tc) /\
          t1 = tc +++ t1' /\
          snd (k w1) = t1' +++ QueryCardPR i :: t2).
Proof.
  induction ids as [|j r IH]; intros w t1 i t2 E.
  - right. exists w, [], t1. repeat split.
    simpl in E. unfold bind, ret in E.
    destruct (k w) as [[o w1] t]. exact E.
  - destruct t1 as [|y t1].
    { (* the query is the first event: it is the query for [j] *)
      left. exists [], r, w.
      assert (i = j) as ->.
      { rewrite bind_check_ids_cons in E.
        destruct (runQueryToGetPRForCardId env j w) as [[info|e] w1].
        - destruct (confirmed_closed info).
          + destruct (mutateDeleteProjectCard env j w1) as [[[]|e] w2].
            * destruct (bind W (check_ids env r) (fun _ => k) w2) as [[o w3] t].
              cbn [snd] in E. inversion E. reflexivity.
            * cbn [snd] in E. inversion E. reflexivity.
          + destruct (bind W (check_ids env r) (fun _ => k) w1) as [[o w3] t].
            cbn [snd] in E. inversion E. reflexivity.
        - cbn [snd] in E. inversion E. reflexivity. }
      repeat split. symmetry. exact E. }
    rewrite bind_check_ids_cons in E.
    pose proof (check_ids_cons j [] w) as Hj.
    destruct (runQueryToGetPRForCardId env j w) as [[info|e] w1].
    + destruct (confirmed_closed info).
      * destruct (mutateDeleteProjectCard env j w1) as [[[]|e] w2].
        -- destruct (bind W (check_ids env r) (fun _ => k) w2)
             as [[o w3] t] eqn:Er.
           cbn [snd] in E. inversion E; subst y.
           destruct t1 as [|y t1]; [discriminate|].
           match goal with H : _ :: t = _ |- _ => inversion H; subst y end.
           apply (lookup_in_ids_step k j r w w2 (DeleteProjectCard j));
             [exact Hj | reflexivity |].
           apply IH. rewrite Er. cbn [snd]. assumption.
        -- cbn [snd] in E. inversion E; subst y.
           destruct t1 as [|y t1]; [discriminate|].
           match goal with H : [_] = _ |- _ => inversion H end.
           destruct t1; discriminate.
      * destruct (bind W (check_ids env r) (fun _ => k) w1)
          as [[o w3] t] eqn:Er.
        cbn [snd] in E. inversion E; subst y.
        destruct t1 as [|y t1]; [discriminate|].
        match goal with H : _ :: t = _ |- _ => inversion H; subst y end.
        apply (lookup_in_ids_step k j r w w1 (should_delete_line j (reason info)));
          [exact Hj | reflexivity |].
        apply IH. rewrite Er. cbn [snd]. assumption.
    + cbn [snd] in E. inversion E. destruct t1; discriminate.
Qed.

End Lookups.

Section LookupsInColumns.

Context {W RawInfo PrInfo D Action Mutation : Type}.
Variable env : Env W RawInfo PrInfo D Action Mutation.

(** The columns that the loop passes over in silence. *)
Lemma handle_column_silent (cardIDs : list string) (c : Column) (w : W) :
  stale_cards cardIDs [c] = [] ->
  handle_column env cardIDs c w = (Ret tt, w, []).
Proof.
  unfold stale_cards, other_columns, handle_column. simpl.
  destruct (String.eqb (name c) "Recently Merged"); simpl; [reflexivity|].
  rewrite app_nil_r. intros ->. reflexivity.
Qed.

(** A column with cards to look at: its heading, then the loop over its
    ids, then the columns behind it. *)
Lemma handle_other_columns_cons (cardIDs : list string) (c : Column)
    (r : list Column) (w : W) :
  stale_cards cardIDs [c] <> [] ->
  handle_other_columns env cardIDs (c :: r) w
  = (let '(o, w1, t) :=
       bind W (check_ids env (stale_cards cardIDs [c]))
            (fun _ => handle_other_columns env cardIDs r) w in
     (o, w1,
      Console Log ("Cleaning up closed PRs in " ++ quoted (name c)) :: t)).
Proof.
  unfold stale_cards, other_columns. simpl handle_other_columns.
  unfold handle_column. simpl filter.
  destruct (String.eqb (name c) "Recently Merged"); simpl;
    [intros H; contradiction H; reflexivity|].
  rewrite app_nil_r. intros Hne.
  destruct (stale_ids cardIDs c) as [|j l]; [contradiction Hne; reflexivity|].
  unfold bind at 1 2 3. unfold console, emit.
  destruct (check_ids env (j :: l) w) as [[[[]|e] w1] t]; [|reflexivity].
  unfold bind.
  destruct (handle_other_columns env cardIDs r w1) as [[o w2] t']. reflexivity.
Qed.

Lemma check_ids_blocks (ids : list string) (w : W) :
  card_blocks (snd (check_ids env ids w)).
Proof.
  revert w. induction ids as [|j r IH]; intros w; [constructor|].
  rewrite check_ids_cons.
  destruct (runQueryToGetPRForCardId env j w) as [[info|e] w1].
  - destruct (confirmed_closed info).
    + destruct (mutateDeleteProjectCard env j w1) as [[[]|e] w2].
      * specialize (IH w2). destruct (check_ids env r w2) as [[o w3] t].
        apply blocks_delete. exact IH.
      * apply blocks_delete. constructor.
    + specialize (IH w1). destruct (check_ids env r w1) as [[o w3] t].
      apply blocks_query. apply blocks_line. exact IH.
  - apply blocks_query. constructor.
Qed.

Lemma handle_other_columns_blocks (cardIDs : list string)
    (columns : list Column) (w : W) :
  card_blocks (snd (handle_other_columns env cardIDs columns w)).
Proof.
  revert w. induction columns as [|c r IH]; intros w; [constructor|].
  destruct (stale_cards cardIDs [c]) as [|j l] eqn:Hc.
  - simpl. rewrite (bind_Ret _ _ w tt w [] (handle_column_silent cardIDs c w Hc)).
    specialize (IH w).
    destruct (handle_other_columns env cardIDs r w) as [[o w1] t]. exact IH.
  - rewrite handle_other_columns_cons by (rewrite Hc; discriminate).
    rewrite Hc. unfold bind.
    pose proof (check_ids_blocks (j :: l) w) as Hb.
    destruct (check_ids env (j :: l) w) as [[[[]|e] w1] t]; cbn [snd] in *.
    + specialize (IH w1).
      destruct (handle_other_columns env cardIDs r w1) as [[o w2] t'].
      cbn [snd] in *. apply blocks_line. apply card_blocks_app; assumption.
    + apply blocks_line. exact Hb.
Qed.

(** A card query in the trace of the loop over the other columns: the
    cards looked at before it, the world in which it is asked, and what
    stands behind it. *)
Lemma lookup_in_columns (cardIDs : list string) (columns : list Column) :
  forall (w : W) (t1 : trace) (i : string) (t2 : trace),
    snd (handle_other_columns env cardIDs columns w)
    = t1 +++ QueryCardPR i :: t2 ->
    exists before behind wq,
      stale_cards cardIDs columns = (before ++ i :: behind)%list /\
      fst (check_ids env before w) = (Ret tt, wq) /\
      looked_up_ids t1 = before /\
      follows_lookup i (fst (runQueryToGetPRForCardId env i wq)) t2.
Proof.
  induction columns as [|c r IH]; intros w t1 i t2 E.
  - destruct t1; discriminate E.
  - rewrite stale_cards_cons.
    destruct (stale_cards cardIDs [c]) as [|j l] eqn:Hc.
    + simpl handle_other_columns in E.
      rewrite (bind_Ret _ _ w tt w [] (handle_column_silent cardIDs c w Hc)) in E.
      apply IH.
      destruct (handle_other_columns env cardIDs r w) as [[o w1] t]. exact E.
    + rewrite handle_other_columns_cons in E by (rewrite Hc; discriminate).
      rewrite Hc in E.
      destruct (bind W (check_ids env (j :: l))
                     (fun _ => handle_other_columns env cardIDs r) w)
        as [[o w1] t] eqn:Eb.
      cbn [snd] in E.
      apply cons_eq_app in E as [(_ & E & _)|(t1' & -> & E)]; [discriminate E|].
      assert (snd (bind W (check_ids env (j :: l))
                        (fun _ => handle_other_columns env cardIDs r) w)
              = t1' +++ QueryCardPR i :: t2) as E'
        by (rewrite Eb; exact E).
      apply lookup_in_ids in E'
        as [(before & behind & wq & Hids & Hw & Hl & Hrest)
           |(w2 & tc & t1'' & Hcheck & -> & Hk)].
      * exists before, (behind ++ stale_cards cardIDs r)%list, wq.
        rewrite Hids, <- app_assoc. repeat split; auto.
        apply (follows_first_lookup env _ i behind wq t2 Hrest).
      * destruct (IH w2 t1'' i t2 Hk) as (before & behind & wq & Hs & Hw & Hl & Hf).
        exists ((j :: l) ++ before)%list, behind, wq.
        rewrite Hs, <- app_assoc. split; [reflexivity|]. split; [|split].
        -- rewrite check_ids_app, Hcheck.
           destruct (check_ids env before w2) as [[o' w3] t']. cbn [fst] in *.
           inversion Hw; subst. reflexivity.
        -- change (Console Log ("Cleaning up closed PRs in " ++ quoted (name c))
                   :: tc +++ t1'')
             with ([Console Log ("Cleaning up closed PRs in " ++ quoted (name c))]
                   +++ tc +++ t1'').
           rewrite !looked_up_ids_app, Hl.
           pose proof (check_ids_trace env (j :: l) w) as [_ Hlook].
           rewrite Hcheck in Hlook. cbn [fst snd] in Hlook.
           rewrite Hlook. reflexivity.
        -- exact Hf.
Qed.

End LookupsInColumns.

(** C2: in the loop over the other columns, whatever the card query and
    the deletion do.  Every card query is for a card of a column other
    than 'Recently Merged' whose id is not among the card ids of the open
    PRs, and it is asked in the world that the looks at the cards before
    it have left.  When the query answers nothing, or a PR whose state is
    not "CLOSED", the line "Should delete" stands behind it in the trace
    and no deletion; when it throws, the trace ends.  And every deletion
    in the trace stands right behind the query for the same card, and that
    query has answered a PR whose state is "CLOSED". *)
Theorem unconfirmed_cards_are_never_deleted
    {W RawInfo PrInfo D Action Mutation : Type}
    (env : Env W RawInfo PrInfo D Action Mutation)
    (cardIDs : list string) (columns : list Column) (w : W) :
  (forall t1 i t2,
     snd (handle_other_columns env cardIDs columns w)
     = t1 +++ QueryCardPR i :: t2 ->
     exists before behind wq,
       stale_cards cardIDs columns = (before ++ i :: behind)%list /\
       fst (check_ids env before w) = (Ret tt, wq) /\
       looked_up_ids t1 = before /\
       follows_lookup i (fst (runQueryToGetPRForCardId env i wq)) t2) /\
  (forall t1 i t2,
     snd (handle_other_columns env cardIDs columns w)
     = t1 +++ DeleteProjectCard i :: t2 ->
     exists t0 before behind wq pr,
       t1 = t0 +++ [QueryCardPR i] /\
       stale_cards cardIDs columns = (before ++ i :: behind)%list /\
       fst (check_ids env before w) = (Ret tt, wq) /\
       looked_up_ids t0 = before /\
       fst (runQueryToGetPRForCardId env i wq) = Ret (Some pr) /\
       state pr = "CLOSED") /\
  (forall i,
     In i (stale_cards cardIDs columns) ->
     ~ In i cardIDs /\
     exists column c,
       In column columns /\ name column <> "Recently Merged" /\
       In c (cards column) /\ id c = i).
Proof.
  split; [|split].
  - intros t1 i t2 E. apply (lookup_in_columns env cardIDs columns w t1 i t2 E).
  - intros t1 i t2 E.
    destruct (blocks_adjacent _ (handle_other_columns_blocks env cardIDs columns w)
                t1 i t2 E) as (t0 & ->).
    rewrite <- app_assoc in E. simpl in E.
    destruct (lookup_in_columns env cardIDs columns w t0 i _ E)
      as (before & behind & wq & Hs & Hw & Hl & Hf).
    unfold follows_lookup in Hf.
    destruct (fst (runQueryToGetPRForCardId env i wq)) as [info|e] eqn:Hq;
      [|discriminate Hf].
    destruct (confirmed_closed info) eqn:Hc.
    + destruct info as [pr|]; [|discriminate Hc].
      exists t0, before, behind, wq, pr.
      split; [reflexivity|]. split; [exact Hs|]. split; [exact Hw|].
      split; [exact Hl|]. split; [exact Hq|].
      apply String.eqb_eq. exact Hc.
    + destruct Hf as (t & Hf). discriminate Hf.
  - intros i. apply stale_cards_In.
Qed.

Lemma unconfirmed_cards_are_never_deleted_witness :
  snd (handle_other_columns env_closing [] twice_listed O)
  = [Console Log ("Cleaning up closed PRs in " ++ quoted "Needs Author Action");
     QueryCardPR "a"; should_delete_line "a" "#12";
     Console Log ("Cleaning up closed PRs in " ++ quoted "Waiting for Code Reviews");
     QueryCardPR "a"; DeleteProjectCard "a"] /\
  (exists before behind wq,
     stale_cards [] twice_listed = (before ++ "a" :: behind)%list /\
     fst (check_ids env_closing before O) = (Ret tt, wq) /\
     looked_up_ids
       [Console Log ("Cleaning up closed PRs in " ++ quoted "Needs Author Action")]
     = before /\
     follows_lookup "a" (fst (runQueryToGetPRForCardId env_closing "a" wq))
       [should_delete_line "a" "#12";
        Console Log ("Cleaning up closed PRs in " ++ quoted "Waiting for Code Reviews");
        QueryCardPR "a"; DeleteProjectCard "a"]) /\
  (exists t0 before behind wq pr,
     [Console Log ("Cleaning up closed PRs in " ++ quoted "Needs Author Action");
      QueryCardPR "a"; should_delete_line "a" "#12";
      Console Log ("Cleaning up closed PRs in " ++ quoted "Waiting for Code Reviews");
      QueryCardPR "a"]
     = t0 +++ [QueryCardPR "a"] /\
     stale_cards [] twice_listed = (before ++ "a" :: behind)%list /\
     fst (check_ids env_closing before O) = (Ret tt, wq) /\
     looked_up_ids t0 = before /\
     fst (runQueryToGetPRForCardId env_closing "a" wq) = Ret (Some pr) /\
     state pr = "CLOSED").
Proof.
  split; [reflexivity|]. split.
  - apply (proj1 (unconfirmed_cards_are_never_deleted env_closing []
                    twice_listed O)).
    reflexivity.
  - apply (proj1 (proj2 (unconfirmed_cards_are_never_deleted env_closing []
                           twice_listed O))
             _ "a" []).
    reflexivity.
Defined.

(** X10: whatever the card query and the deletions do, in the trace of the
    loop over the other columns every deletion stands right behind the
    query for the same card; the cards are looked up in the order of the
    columns and of their cards, as far as the loop gets; and every card
    that is looked up is a card of a column that is not named
    'Recently Merged' whose id is not among the card ids of the open
    PRs. *)
Theorem other_columns_look_before_deleting
    {W RawInfo PrInfo D Action Mutation : Type}
    (env : Env W RawInfo PrInfo D Action Mutation)
    (cardIDs : list string) (columns : list Column) (w : W) :
  (forall t1 i t2,
     snd (handle_other_columns env cardIDs columns w)
     = t1 +++ DeleteProjectCard i :: t2 ->
     exists t0, t1 = t0 +++ [QueryCardPR i]) /\
  (exists rest,
     (looked_up_ids (snd (handle_other_columns env cardIDs columns w)) ++ rest)%list
     = stale_cards cardIDs columns) /\
  (forall i,
     In i (looked_up_ids (snd (handle_other_columns env cardIDs columns w))) ->
     ~ In i cardIDs /\
     exists column c,
       In column columns /\ name column <> "Recently Merged" /\
       In c (cards column) /\ id c = i).
Proof.
  destruct (handle_other_columns_trace env cardIDs columns w) as [_ Hlook].
  assert (exists rest,
            (looked_up_ids (snd (handle_other_columns env cardIDs columns w))
             ++ rest)%list = stale_cards cardIDs columns) as Hprefix.
  { destruct (fst (fst (handle_other_columns env cardIDs columns w))).
    - exists []. rewrite app_nil_r. exact Hlook.
    - exact Hlook. }
  split; [|split; [exact Hprefix|]].
  - apply blocks_adjacent. apply handle_other_columns_blocks.
  - intros i Hi. apply stale_cards_In.
    destruct Hprefix as (rest & <-). apply in_or_app. left. exact Hi.
Qed.
